(** * QR-DQN on FrozenLake: replay memory, target builder, loss, policy loop

    A shallow embedding of [qr_dqn_FrozenLake.py] and of the reward
    computation of [custom_env/custom_env6.py].

    Numbers.  Python floats and torch tensors are modelled with exact
    rationals ([Q], compared with [==]); a tensor of rank two is a list of
    rows.  The environment's reward uses a Euclidean norm and is modelled
    over the reals, with the non-finite results of a numpy division kept
    as explicit values. *)

From Stdlib Require Import Reals.
From Stdlib Require Import List Arith ZArith QArith Qabs Qminmax Lia Lra Psatz Bool Permutation.
From Stdlib Require Import Sorted Qpower.
Import ListNotations.

Local Open Scope Q_scope.

Set Implicit Arguments.

(** ** Python exceptions *)

Inductive PyError : Type :=
| ValueError        (* random.sample: sample larger than population; unpacking *)
| IndexError        (* numpy row index out of bounds; random.choice on empty *)
| ZeroDivisionError (* float division by the Python integer 0 *)
| RuntimeError.     (* torch: .item() on a tensor that is not a single element *)

Inductive Result (A : Type) : Type :=
| Ok (a : A)
| Raise (e : PyError).

Arguments Ok {A} a.
Arguments Raise {A} e.

Definition bind {A B} (r : Result A) (f : A -> Result B) : Result B :=
  match r with
  | Ok a => f a
  | Raise e => Raise e
  end.

Notation "x <- r ;; k" := (bind r (fun x => k))
  (at level 61, r at next level, right associativity).

(** ** The [random] module: a draw stream with a cursor *)

Record RandomState : Type := mkRandom {
  draws : nat -> N;
  cursor : nat
}.

(** [_randbelow(n)]: the next draw reduced below [n]. *)
Definition randbelow (n : nat) (g : RandomState) : nat * RandomState :=
  (N.to_nat (draws g (cursor g) mod N.of_nat n),
   mkRandom (draws g) (S (cursor g))).

(** [pool[j] = v] on a Python list (in range in every use below). *)
Fixpoint list_set {A} (l : list A) (j : nat) (v : A) : list A :=
  match l, j with
  | [], _ => []
  | _ :: t, O => v :: t
  | h :: t, S j' => h :: list_set t j' v
  end.

(** The selection loop of [random.sample] (the pool variant of the standard
    library): at step [i], with [n] the population size,
    [j = randbelow(n - i); result[i] = pool[j]; pool[j] = pool[n - i - 1]].
    [m] is [n - i], [k] the number of picks still to make. *)
Fixpoint sample_loop {A} (pool : list A) (m k : nat) (g : RandomState)
  : list A * RandomState :=
  match k with
  | O => ([], g)
  | S k' =>
      let (j, g1) := randbelow m g in
      match nth_error pool j, nth_error pool (m - 1) with
      | Some x, Some y =>
          let (rest, g2) := sample_loop (list_set pool j y) (m - 1) k' g1 in
          (x :: rest, g2)
      | _, _ => ([], g1)
      end
  end.

(** [random.sample(population, k)]: [ValueError] unless [0 <= k <= n];
    the population is copied into [pool] and never written to.  (For a
    population much larger than [k] the library draws positions and
    rejects repeats instead; that variant is not part of this model.) *)
Definition random_sample {A} (population : list A) (k : nat) (g : RandomState)
  : Result (list A) * RandomState :=
  let n := length population in
  if (k <=? n)%nat then
    let pool := population in
    let (result, g') := sample_loop pool n k g in
    (Ok result, g')
  else (Raise ValueError, g).

(** ** [collections.deque] with [maxlen] *)

Record deque (A : Type) : Type := mkDeque {
  maxlen : nat;
  items : list A
}.

(** [deque.append]: the item is added on the right; when the deque is then
    longer than [maxlen] the leftmost item is dropped. *)
Definition deque_append {A} (d : deque A) (x : A) : deque A :=
  let l := items d ++ [x] in
  mkDeque (maxlen d) (if (maxlen d <? length l)%nat then tl l else l).

(** ** ReplayBuffer *)

Module ReplayBuffer.

(** A stored entry [[observation, action, reward, next_observation, done]],
    the observations one-hot encoded. *)
Record Entry : Type := mkEntry {
  observation : list Q;
  action : Z;
  reward : Q;
  next_observation : list Q;
  done : bool
}.

(** The arguments of one [store] call. *)
Record Transition : Type := mkTransition {
  t_observation : Z;
  t_action : Z;
  t_reward : Q;
  t_next_observation : Z;
  t_done : bool
}.

Record t : Type := mkReplayBuffer {
  capacity : nat;
  memory : deque Entry;
  observation_dim : nat
}.

(** [ReplayBuffer.__init__] *)
Definition init (capacity observation_dim : nat) : t :=
  mkReplayBuffer capacity (mkDeque capacity []) observation_dim.

(** Row [i] of [np.eye(dim)]. *)
Definition one_hot (dim i : nat) : list Q :=
  map (fun j => if (j =? i)%nat then 1 else 0) (seq 0 dim).

(** [np.eye(dim)[i]]: a negative index counts from the end, an index
    outside [-dim, dim) raises [IndexError]. *)
Definition eye_row (dim : nat) (i : Z) : Result (list Q) :=
  if ((0 <=? i) && (i <? Z.of_nat dim))%Z then Ok (one_hot dim (Z.to_nat i))
  else if ((- Z.of_nat dim <=? i) && (i <? 0))%Z
       then Ok (one_hot dim (Z.to_nat (i + Z.of_nat dim)))
       else Raise IndexError.

(** [ReplayBuffer.store] *)
Definition store (self : t) (tr : Transition) : Result t :=
  obs <- eye_row (observation_dim self) (t_observation tr) ;;
  next_obs <- eye_row (observation_dim self) (t_next_observation tr) ;;
  Ok (mkReplayBuffer (capacity self)
        (deque_append (memory self)
           (mkEntry obs (t_action tr) (t_reward tr) next_obs (t_done tr)))
        (observation_dim self)).

(** [ReplayBuffer.__len__] *)
Definition len (self : t) : nat := length (items (memory self)).

(** The five parallel sequences returned by [sample]. *)
Record Batch : Type := mkBatch {
  b_observation : list (list Q);
  b_action : list Z;
  b_reward : list Q;
  b_next_observation : list (list Q);
  b_done : list bool
}.

(** [observation, action, reward, next_observation, done = zip( *batch)]:
    [zip] of no arguments yields nothing, and unpacking it into five names
    raises [ValueError]. *)
Definition unzip5 (batch : list Entry) : Result Batch :=
  match batch with
  | [] => Raise ValueError
  | _ => Ok (mkBatch (map observation batch) (map action batch)
                     (map reward batch) (map next_observation batch)
                     (map done batch))
  end.

(** [ReplayBuffer.sample]: the result, the buffer after the call and the
    generator after the call. *)
Definition sample (self : t) (size : nat) (g : RandomState)
  : Result Batch * t * RandomState :=
  let (r, g') := random_sample (items (memory self)) size g in
  (batch <- r ;; unzip5 batch, self, g').

(** A run of [store] calls, stopping at the first exception. *)
Fixpoint store_all (self : t) (ts : list Transition) : Result t :=
  match ts with
  | [] => Ok self
  | tr :: ts' => self' <- store self tr ;; store_all self' ts'
  end.

(** An index numpy accepts for a row of [np.eye(dim)], and the row it
    selects. *)
Definition valid_index (dim : nat) (i : Z) : Prop :=
  (- Z.of_nat dim <= i < Z.of_nat dim)%Z.

Definition row_index (dim : nat) (i : Z) : nat :=
  if (i <? 0)%Z then Z.to_nat (i + Z.of_nat dim) else Z.to_nat i.

Definition valid (dim : nat) (tr : Transition) : Prop :=
  valid_index dim (t_observation tr) /\ valid_index dim (t_next_observation tr).

(** The entry a successful [store] appends. *)
Definition encode (dim : nat) (tr : Transition) : Entry :=
  mkEntry (one_hot dim (row_index dim (t_observation tr)))
          (t_action tr) (t_reward tr)
          (one_hot dim (row_index dim (t_next_observation tr)))
          (t_done tr).

(** The batch made of the given entries, in that order. *)
Definition batch_of (es : list Entry) : Batch :=
  mkBatch (map observation es) (map action es) (map reward es)
          (map next_observation es) (map done es).

End ReplayBuffer.

(** ** Tensor helpers *)

Definition Qltb (x y : Q) : bool := negb (Qle_bool y x).

Definition sum (l : list Q) : Q := fold_right Qplus 0 l.

(** [t.mean(dim)] over one row: the sum divided by the number of entries. *)
Definition mean (l : list Q) : Q := sum l / inject_Z (Z.of_nat (length l)).

Fixpoint map2 {A B C} (f : A -> B -> C) (l1 : list A) (l2 : list B) : list C :=
  match l1, l2 with
  | a :: l1', b :: l2' => f a b :: map2 f l1' l2'
  | _, _ => []
  end.

(** Index of the first maximal entry ([t.max(dim)[1]], [t.argmax(dim)]) of
    [x :: l], the scan being at position [i] with best value [best] found
    at [besti]. *)
Fixpoint argmax_from (l : list Q) (i : nat) (best : Q) (besti : nat) : nat :=
  match l with
  | [] => besti
  | x :: l' =>
      if Qltb best x then argmax_from l' (S i) x i
      else argmax_from l' (S i) best besti
  end.

(** A reduction over an empty dimension is an error in torch. *)
Definition argmax (l : list Q) : Result nat :=
  match l with
  | [] => Raise IndexError
  | x :: l' => Ok (argmax_from l' 1 x 0)
  end.

Fixpoint mapM {A B} (f : A -> Result B) (l : list A) : Result (list B) :=
  match l with
  | [] => Ok []
  | a :: l' => b <- f a ;; bs <- mapM f l' ;; Ok (b :: bs)
  end.

(** [t.unsqueeze(1).expand(batch_size, quant_num)] *)
Definition expand (v : list Q) (quant_num : nat) : list (list Q) :=
  map (fun x => repeat x quant_num) v.

(** [dist.gather(1, a.unsqueeze(1).unsqueeze(2).expand(batch_size, 1, quant_num)).squeeze(1)]:
    for every sample the first [quant_num] quantiles of the chosen action. *)
Definition gather_action (dist : list (list (list Q))) (a : list nat)
    (quant_num : nat) : list (list Q) :=
  map2 (fun d ai => map (fun q => nth q (nth ai d []) 0) (seq 0 quant_num))
       dist a.

(** [t.clamp(min=lo, max=hi)] on one entry. *)
Definition clamp (lo hi x : Q) : Q := Qmin (Qmax x lo) hi.

(** [torch.argsort(v)] on one row, ascending: the indices are inserted in
    turn after the entries that are not larger (ties keep index order). *)
Fixpoint insert_idx (v : list Q) (i : nat) (sorted : list nat) : list nat :=
  match sorted with
  | [] => [i]
  | j :: rest =>
      if Qltb (nth i v 0) (nth j v 0) then i :: j :: rest
      else j :: insert_idx v i rest
  end.

Definition argsort (v : list Q) : list nat :=
  fold_left (fun acc i => insert_idx v i acc) (seq 0 (length v)) [].

(** [torch.linspace(start, stop, steps)] *)
Definition linspace (start stop : Q) (steps : nat) : list Q :=
  match steps with
  | 1%nat => [start]
  | _ => map (fun i => start + inject_Z (Z.of_nat i) * (stop - start)
                               / inject_Z (Z.of_nat (steps - 1)))
             (seq 0 steps)
  end.

(** ** The quantile value network *)

Module QR_DQN.

(** [nn.Linear]: [weight] has one row per output feature. *)
Record Linear : Type := mkLinear {
  weight : list (list Q);
  bias : list Q;
  l_training : bool
}.

Record t : Type := mkQR_DQN {
  observation_dim : nat;
  action_dim : nat;
  quant_num : nat;
  fc1 : Linear;
  fc2 : Linear;
  fc3 : Linear;
  fc4 : Linear;
  training : bool
}.

Definition dot (x w : list Q) : Q := sum (map2 Qmult x w).

(** [fc(x)] on one row: [x W^T + b]. *)
Definition linear (fc : Linear) (x : list Q) : list Q :=
  map2 (fun w b => dot x w + b) (weight fc) (bias fc).

Definition relu (x : Q) : Q := if Qltb 0 x then x else 0.

(** [x.view(batch_size, action_dim, quant_num)] on one row. *)
Definition view (action_dim quant_num : nat) (x : list Q) : list (list Q) :=
  map (fun a => firstn quant_num (skipn (a * quant_num) x)) (seq 0 action_dim).

(** [QR_DQN.forward]: a batch of observations to [batch, action_dim, quant_num]. *)
Definition forward (self : t) (observation : list (list Q))
  : list (list (list Q)) :=
  map (fun o =>
         let x := map relu (linear (fc1 self) o) in
         let x := map relu (linear (fc2 self) x) in
         let x := map relu (linear (fc3 self) x) in
         let x := linear (fc4 self) x in
         view (action_dim self) (quant_num self) x)
      observation.

(** [nn.Module.train(mode)]: the flag of the module and of its children. *)
Definition set_mode (mode : bool) (fc : Linear) : Linear :=
  mkLinear (weight fc) (bias fc) mode.

Definition train (self : t) (mode : bool) : t :=
  mkQR_DQN (observation_dim self) (action_dim self) (quant_num self)
           (set_mode mode (fc1 self)) (set_mode mode (fc2 self))
           (set_mode mode (fc3 self)) (set_mode mode (fc4 self)) mode.

(** [nn.Module.eval()] is [train(False)]. *)
Definition eval (self : t) : t := train self false.

(** The trainable parameters ([self.parameters()]). *)
Definition parameters (self : t) : list (list (list Q) * list Q) :=
  map (fun fc => (weight fc, bias fc)) [fc1 self; fc2 self; fc3 self; fc4 self].

(** [random.random()]: a float in [0, 1) with 53 random bits. *)
Definition random (g : RandomState) : Q * RandomState :=
  (inject_Z (Z.of_N (draws g (cursor g) mod 2 ^ 53)) / inject_Z (2 ^ 53),
   mkRandom (draws g) (S (cursor g))).

(** [QR_DQN.act]: the action (or the exception), the module after the call
    and the generator after the call.  An exception leaves before
    [self.train()] is reached. *)
Definition act (self : t) (observation : list (list Q)) (epsilon : Q)
    (g : RandomState) : Result nat * t * RandomState :=
  let self := eval self in
  let (r, g) := random g in
  if Qltb epsilon r then
    let dist := forward self observation in
    let q_values := map (map mean) dist in
    match mapM argmax q_values with
    | Ok [a] => (Ok a, train self true, g)        (* [.item()] *)
    | Ok _ => (Raise RuntimeError, self, g)
    | Raise e => (Raise e, self, g)
    end
  else
    match action_dim self with
    | O => (Raise IndexError, self, g)            (* [random.choice([])] *)
    | _ => let (j, g) := randbelow (action_dim self) g in
           (Ok j, train self true, g)
    end.

(** [self.state_dict()]: the weight and the bias of each layer, in order. *)
Definition state_dict (self : t) : list (list (list Q) * list Q) :=
  parameters self.

Fixpoint shape_eqb (s1 s2 : list nat) : bool :=
  match s1, s2 with
  | [], [] => true
  | a :: s1', b :: s2' => (a =? b)%nat && shape_eqb s1' s2'
  | _, _ => false
  end.

(** The tensors [w], [b] have the sizes of the layer's own. *)
Definition fits (fc : Linear) (w : list (list Q)) (b : list Q) : bool :=
  shape_eqb (map (@length Q) (weight fc)) (map (@length Q) w)
  && (length (bias fc) =? length b)%nat.

(** [self.load_state_dict(sd)]: the values are copied into the layers;
    a missing or extra entry or a size mismatch is a [RuntimeError].  The
    mode flags are not part of the state. *)
Definition load_state_dict (self : t) (sd : list (list (list Q) * list Q))
  : Result t :=
  match sd with
  | [(w1, b1); (w2, b2); (w3, b3); (w4, b4)] =>
      if fits (fc1 self) w1 b1 && fits (fc2 self) w2 b2
         && fits (fc3 self) w3 b3 && fits (fc4 self) w4 b4
      then Ok (mkQR_DQN (observation_dim self) (action_dim self)
                 (quant_num self)
                 (mkLinear w1 b1 (l_training (fc1 self)))
                 (mkLinear w2 b2 (l_training (fc2 self)))
                 (mkLinear w3 b3 (l_training (fc3 self)))
                 (mkLinear w4 b4 (l_training (fc4 self)))
                 (training self))
      else Raise RuntimeError
  | _ => Raise RuntimeError
  end.

End QR_DQN.

(** ** Target distribution builder *)

(** The nominal quantile midpoints:
    [torch.linspace(0.0, 1.0 - 1. / quant_num, quant_num) + 0.5 / quant_num]. *)
Definition tau_hat (quant_num : nat) : list Q :=
  let q := inject_Z (Z.of_nat quant_num) in
  map (fun x => x + 0.5 / q) (linspace 0 (1 - 1 / q) quant_num).

(** [tau_hat.unsqueeze(0).expand(batch_size, quant_num).gather(1, quant_idx)] *)
Definition gather_tau (tau_hat : list Q) (quant_idx : list (list nat))
  : list (list Q) :=
  map (fun idx => map (fun i => nth i tau_hat 0) idx) quant_idx.

(** [get_target_distribution].  [reward] and [done] are the float tensors
    built by [train]. *)
Definition get_target_distribution (target_model : QR_DQN.t)
    (next_observation : list (list Q)) (reward done : list Q) (gamma : Q)
    (action_dim quant_num : nat)
  : Result (list (list Q) * list (list Q)) :=
  let next_dist := QR_DQN.forward target_model next_observation in
  next_action <- mapM argmax (map (map mean) next_dist) ;;
  let next_dist := gather_action next_dist next_action quant_num in
  let reward := expand reward quant_num in
  let done := expand done quant_num in
  let target_dist :=
    map2 (map2 Qplus) reward
         (map2 (map2 Qmult) (map (map (fun d => gamma * (1 - d))) done)
               next_dist) in
  let target_dist := map (map (clamp 0 1)) target_dist in
  let quant_idx := map argsort next_dist in
  match quant_num with
  | O => Raise ZeroDivisionError                  (* [1. / quant_num] *)
  | _ =>
      let tau := gather_tau (tau_hat quant_num) quant_idx in
      Ok (target_dist, tau)
  end.

(** ** Trainer: the loss *)

(** [huber_loss] of [train], on one entry of [u]. *)
Definition huber_loss (k u : Q) : Q :=
  0.5 * (clamp 0 k (Qabs u)) ^ 2
  + k * (Qabs u - clamp 0 k (Qabs u) - 0.5 * k).

(** [(tau - (u < 0).float()).abs() * huber_loss], on one entry. *)
Definition quantile_loss (k tau u : Q) : Q :=
  Qabs (tau - (if Qltb u 0 then 1 else 0)) * huber_loss k u.

(** [quantile_loss.sum() / batch_size] *)
Definition loss (k : Q) (tau u : list (list Q)) (batch_size : nat) : Q :=
  sum (map sum (map2 (map2 (quantile_loss k)) tau u))
  / inject_Z (Z.of_nat batch_size).

(** [torch.FloatTensor(done)] on one flag. *)
Definition float_of_bool (d : bool) : Q := if d then 1 else 0.

(** [train] from the sampled batch to [loss]. *)
Definition train_batch (eval_model target_model : QR_DQN.t)
    (batch : ReplayBuffer.Batch) (gamma : Q)
    (action_dim quant_num batch_size : nat) (k : Q) : Result Q :=
  let observation := ReplayBuffer.b_observation batch in
  let action := map Z.to_nat (ReplayBuffer.b_action batch) in
  let reward := ReplayBuffer.b_reward batch in
  let next_observation := ReplayBuffer.b_next_observation batch in
  let done := map float_of_bool (ReplayBuffer.b_done batch) in
  let dist := QR_DQN.forward eval_model observation in
  let dist := gather_action dist action quant_num in
  td <- get_target_distribution target_model next_observation reward done
          gamma action_dim quant_num ;;
  let (target_dist, tau) := td in
  let u := map2 (map2 Qminus) target_dist dist in
  Ok (loss k tau u batch_size).

(** [train] up to the value of [loss]: the batch is sampled from the buffer.
    The gradient step and the copy into the target model that follow work
    on that value and are not part of this model. *)
Definition train (eval_model target_model : QR_DQN.t)
    (buffer : ReplayBuffer.t) (gamma : Q)
    (action_dim quant_num batch_size : nat) (k : Q) (g : RandomState)
  : Result Q * ReplayBuffer.t * RandomState :=
  let '(r, buffer, g) := ReplayBuffer.sample buffer batch_size g in
  (batch <- r ;;
   train_batch eval_model target_model batch gamma action_dim quant_num
               batch_size k,
   buffer, g).

(** The end of [train]:
    [if count % update_freq == 0: target_model.load_state_dict(eval_model.state_dict())];
    the target model after it. *)
Definition target_sync (eval_model target_model : QR_DQN.t)
    (count update_freq : Z) : Result QR_DQN.t :=
  if (update_freq =? 0)%Z then Raise ZeroDivisionError
  else if (count mod update_freq =? 0)%Z
       then QR_DQN.load_state_dict target_model (QR_DQN.state_dict eval_model)
       else Ok target_model.

(** The Huber loss of the literature with threshold [k], and its mean over
    a batch of scalar errors (what ordinary DQN minimises). *)
Definition plain_huber (k u : Q) : Q :=
  if Qle_bool (Qabs u) k then 0.5 * u ^ 2 else k * (Qabs u - 0.5 * k).

Definition plain_huber_loss (k : Q) (u : list Q) : Q :=
  sum (map (plain_huber k) u) / inject_Z (Z.of_nat (length u)).

(** The largest entry of a non-empty list (the first one among equals). *)
Definition maximum (l : list Q) : Q :=
  match l with
  | [] => 0
  | x :: l' => fold_left (fun a b => if Qltb a b then b else a) l' x
  end.

(** The target of ordinary DQN for one sample, from the next-state
    Q-values: [reward + gamma * (1 - done) * max_a Q(next_obs, a)], clamped
    like the distributional target. *)
Definition dqn_target (gamma reward done : Q) (q_next : list Q) : Q :=
  clamp 0 1 (reward + gamma * (1 - done) * maximum q_next).

(** ** The episode loop *)

Module Main.

Definition epsilon_init : Q := 0.95.
Definition epsilon_decay : Q := 0.995.
Definition epsilon_min : Q := 0.01.

(** Python's [max(a, b)]: [b] only when it is larger. *)
Definition max (a b : Q) : Q := if Qltb a b then b else a.

(** The update at the end of an episode:
    [if epsilon > epsilon_min: epsilon = max(epsilon * epsilon_decay, epsilon_min)]. *)
Definition decay (epsilon : Q) : Q :=
  if Qltb epsilon_min epsilon then max (epsilon * epsilon_decay) epsilon_min
  else epsilon.

Record LoopState : Type := mkLoop {
  epsilon : Q;
  count : nat
}.

(** One pass of the [while True] body, [done] being what [env.step]
    reported: [count] advances on every step, [epsilon] only when the
    episode ends. *)
Definition tick (done : bool) (st : LoopState) : LoopState :=
  let st := mkLoop (epsilon st) (S (count st)) in
  if done then mkLoop (decay (epsilon st)) (count st) else st.

(** One episode over the [done] flags the environment reports; the loop
    leaves at the first [true].  A trace without [true] is an episode that
    has not completed. *)
Fixpoint episode (steps : list bool) (st : LoopState) : LoopState :=
  match steps with
  | [] => st
  | done :: rest =>
      if done then tick done st            (* [break] *)
      else episode rest (tick done st)
  end.

(** [for i in range(episodes)]: the value of [epsilon] after each episode. *)
Fixpoint run (traces : list (list bool)) (st : LoopState) : list Q :=
  match traces with
  | [] => []
  | steps :: traces' =>
      let st' := episode steps st in
      epsilon st' :: run traces' st'
  end.

(** Each value is at most the one before it. *)
Fixpoint nonincreasing (l : list Q) : Prop :=
  match l with
  | x :: (y :: _) as l' => y <= x /\ nonincreasing l'
  | _ => True
  end.

Definition exploration : nat := 200.
Definition batch_size : nat := 64.

(** The running episode-reward estimate:
    [weight_reward = reward_total] the first time, then
    [0.99 * weight_reward + 0.01 * reward_total]. *)
Definition weight_reward_update (weight_reward : option Q) (reward_total : Q)
  : Q :=
  match weight_reward with
  | None => reward_total
  | Some w => 0.99 * w + 0.01 * reward_total
  end.

(** The values of [weight_reward] printed after each episode, from the
    episodes' reward totals. *)
Fixpoint weight_rewards (weight_reward : option Q) (totals : list Q)
  : list Q :=
  match totals with
  | [] => []
  | reward_total :: totals' =>
      let w := weight_reward_update weight_reward reward_total in
      w :: weight_rewards (Some w) totals'
  end.

(** [epsilon] after [n] completed episodes. *)
Fixpoint epsilon_after (n : nat) (epsilon : Q) : Q :=
  match n with
  | O => epsilon
  | S n' => epsilon_after n' (decay epsilon)
  end.

End Main.

(** ** The navigation environment's reward *)

Module CustomEnv6.

Local Open Scope R_scope.

(** A numpy [float64] result: a number, or what a division by zero leaves. *)
Inductive npfloat : Type :=
| Finite (r : R)
| PosInf
| NegInf
| NaN.

Definition is_finite (x : npfloat) : bool :=
  match x with
  | Finite _ => true
  | _ => false
  end.

Definition fadd (a b : npfloat) : npfloat :=
  match a, b with
  | NaN, _ | _, NaN => NaN
  | Finite x, Finite y => Finite (x + y)
  | PosInf, NegInf | NegInf, PosInf => NaN
  | PosInf, _ | _, PosInf => PosInf
  | NegInf, _ | _, NegInf => NegInf
  end.

Definition fneg (a : npfloat) : npfloat :=
  match a with
  | Finite x => Finite (- x)
  | PosInf => NegInf
  | NegInf => PosInf
  | NaN => NaN
  end.

Definition fsub (a b : npfloat) : npfloat := fadd a (fneg b).

(** [a / b] on two finite [float64]: no exception on [b = 0]. *)
Definition fdiv (a b : R) : npfloat :=
  if Req_dec_T b 0 then
    if Req_dec_T a 0 then NaN
    else if Rlt_dec 0 a then PosInf else NegInf
  else Finite (a / b).

Definition Pos : Type := (Z * Z)%type.

Definition psub (a b : Pos) : Pos := (fst a - fst b, snd a - snd b)%Z.

Definition peqb (a b : Pos) : bool :=
  ((fst a =? fst b) && (snd a =? snd b))%Z.

(** [np.linalg.norm] of a vector of two integers. *)
Definition norm (v : Pos) : R :=
  sqrt (IZR (fst v) * IZR (fst v) + IZR (snd v) * IZR (snd v)).

Record t : Type := mkEnv {
  Map : Z -> Z -> Z;
  Map_shape : Z * Z;
  StopSigns : list (list Z);
  trafficLights : list (list Z);
  SpeedMap : Z -> Z -> R;
  StartState : Pos;
  GoalState : Pos;
  CurrentState : Pos;
  OldState : Pos
}.

Definition StopSignReward : R := 5.
Definition trafficLightReward : R := 15.
Definition GoalReward : R := 10000.
Definition CollisionReward : R := -5.
Definition Road : Z := 1.
Definition obstacle : Z := 0.

(** [if a.shape[0] == 2 and a.shape[1] > 1:] then
    [np.any(np.all(a.T == next_position, axis=1))]. *)
Definition marked (a : list (list Z)) (next_position : Pos) : bool :=
  match a with
  | [xs; ys] => (1 <? length xs)%nat
                && existsb (fun p => peqb p next_position) (combine xs ys)
  | _ => false
  end.

(** [CustomEnv6._on_road_reward] *)
Definition _on_road_reward (self : t) (next_position : Pos) : npfloat :=
  let reward := Finite 0 in
  let old_distance := norm (psub (OldState self) (GoalState self)) in
  let new_distance := norm (psub next_position (GoalState self)) in
  let reward :=
    if Rlt_dec new_distance old_distance then
      fadd reward
        (fadd (Finite 1)
           (fdiv (0.5 * norm (psub (CurrentState self) (StartState self))
                  - 0.5 * new_distance)
                 (norm (psub (StartState self) (GoalState self)))))
    else fsub reward (Finite 1) in
  let speed := SpeedMap self (fst next_position) (snd next_position) in
  let reward :=
    if marked (StopSigns self) next_position
    then fsub reward (Finite (StopSignReward * speed * 10 / 36 / 20))
    else reward in
  let reward :=
    if marked (trafficLights self) next_position
    then fsub reward (Finite (trafficLightReward * speed * 10 / 36 / 20))
    else reward in
  let reward := fadd reward (Finite (speed / 100)) in
  fsub reward (Finite 0.1).

(** [CustomEnv6.reset] *)
Definition reset (self : t) : t :=
  mkEnv (Map self) (Map_shape self) (StopSigns self) (trafficLights self)
        (SpeedMap self) (StartState self) (GoalState self)
        (StartState self) (StartState self).

Definition move (p : Pos) (action : Z) : Result Pos :=
  if (action =? 0)%Z then Ok (fst p - 1, snd p)%Z
  else if (action =? 1)%Z then Ok (fst p + 1, snd p)%Z
  else if (action =? 2)%Z then Ok (fst p, snd p - 1)%Z
  else if (action =? 3)%Z then Ok (fst p, snd p + 1)%Z
  else Raise ValueError.

(** [is_outside or self.Map[next_position[0], next_position[1]] == self.obstacle] *)
Definition blocked (self : t) (next_position : Pos) : bool :=
  let is_outside :=
    ((fst next_position <? 0) || (fst (Map_shape self) <=? fst next_position)
     || (snd next_position <? 0)
     || (snd (Map_shape self) <=? snd next_position))%Z in
  is_outside
  || (Map self (fst next_position) (snd next_position) =? obstacle)%Z.

(** The environment after a move to [next_position]:
    [self.OldState = self.CurrentState.copy()],
    [self.CurrentState = next_position.copy()]. *)
Definition moved (self : t) (next_position : Pos) : t :=
  mkEnv (Map self) (Map_shape self) (StopSigns self) (trafficLights self)
        (SpeedMap self) (StartState self) (GoalState self)
        next_position (CurrentState self).

(** [CustomEnv6.step] without rendering: the reward and [done], and the
    environment after the call. *)
Definition step (self : t) (action : Z) : Result (npfloat * bool) * t :=
  match move (CurrentState self) action with
  | Raise e => (Raise e, self)
  | Ok next_position =>
      let collision := blocked self next_position in
      let reward := if collision then Finite (0 + CollisionReward) else Finite 0 in
      let next_position := if collision then OldState self else next_position in
      let self := moved self next_position in
      if Rlt_dec (norm (psub (CurrentState self) (GoalState self))) 1 then
        (Ok (fadd reward (Finite GoalReward), true), self)
      else if collision then (Ok (reward, false), self)
      else (Ok (fadd reward (_on_road_reward self next_position), false), self)
  end.

(** Three moves in a row, each reward kept. *)
Definition step3 (self : t) (a1 a2 a3 : Z) : list (Result (npfloat * bool)) :=
  let (r1, s1) := step self a1 in
  let (r2, s2) := step s1 a2 in
  let (r3, s3) := step s2 a3 in
  [r1; r2; r3].

(** A run of moves, each from the state the one before left. *)
Definition steps (self : t) (actions : list Z) : t :=
  fold_left (fun s a => snd (step s a)) actions self.

End CustomEnv6.

(** ** Concrete inputs *)

(** Three transitions of a four-state environment. *)
Definition ts3 : list ReplayBuffer.Transition :=
  [ReplayBuffer.mkTransition 0 1 0 1 false;
   ReplayBuffer.mkTransition 1 2 0 2 false;
   ReplayBuffer.mkTransition 2 1 1 3 true].

(** A replay memory of capacity 2 after these three stores. *)
Definition buffer2 : ReplayBuffer.t :=
  ReplayBuffer.mkReplayBuffer 2
    (mkDeque 2 (skipn 1 (map (ReplayBuffer.encode 4) ts3))) 4.

(** A generator whose draws are 0, 1, 2, ... *)
Definition g0 : RandomState := mkRandom N.of_nat 0.

(** A generator whose draws are all [2^52]: [random()] returns [0.5]. *)
Definition g_half : RandomState := mkRandom (fun _ => (2 ^ 52)%N) 0.

(** A network with the layer sizes of [QR_DQN.__init__] whose weights are
    all zero, so that every observation is mapped to the bias [out] of the
    last layer. *)
Definition constant_net (observation_dim action_dim quant_num : nat)
    (out : list Q) (mode : bool) : QR_DQN.t :=
  let zeros (rows cols : nat) := repeat (repeat 0 cols) rows in
  QR_DQN.mkQR_DQN observation_dim action_dim quant_num
    (QR_DQN.mkLinear (zeros 32%nat observation_dim) (repeat 0 32%nat) mode)
    (QR_DQN.mkLinear (zeros 64%nat 32%nat) (repeat 0 64%nat) mode)
    (QR_DQN.mkLinear (zeros 128%nat 64%nat) (repeat 0 128%nat) mode)
    (QR_DQN.mkLinear (zeros (action_dim * quant_num)%nat 128%nat) out mode)
    mode.

(** One action, three quantiles [0.3, 0.1, 0.2]. *)
Definition net3 : QR_DQN.t := constant_net 2 1 3 [0.3; 0.1; 0.2] false.

(** One action, one quantile. *)
Definition net_one : QR_DQN.t := constant_net 2 1 1 [1] true.
Definition net_minus_one : QR_DQN.t := constant_net 2 1 1 [-1] true.

(** A memory holding one terminal transition with reward 1. *)
Definition buffer1 : ReplayBuffer.t :=
  ReplayBuffer.mkReplayBuffer 2
    (mkDeque 2 [ReplayBuffer.encode 2 (ReplayBuffer.mkTransition 0 0 1 1 true)])
    2.

(** The batch made of that transition. *)
Definition batch1 : ReplayBuffer.Batch :=
  ReplayBuffer.batch_of (items (ReplayBuffer.memory buffer1)).

(** A three by three map of road cells without signs or lights, speed
    limit 50; the start cell is the goal cell. *)
Definition env_start_is_goal : CustomEnv6.t :=
  CustomEnv6.mkEnv (fun _ _ => 1%Z) (3, 3)%Z [] [] (fun _ _ => 50%R)
                   (0, 0)%Z (0, 0)%Z (0, 0)%Z (0, 0)%Z.

(** The same map with the start in one corner and the goal in the
    opposite one. *)
Definition env_corner_to_corner : CustomEnv6.t :=
  CustomEnv6.mkEnv (fun _ _ => 1%Z) (3, 3)%Z [] [] (fun _ _ => 50%R)
                   (0, 0)%Z (2, 2)%Z (0, 0)%Z (0, 0)%Z.

(** A memory holding 201 copies of one transition. *)
Definition buffer201 : ReplayBuffer.t :=
  ReplayBuffer.mkReplayBuffer 1000
    (mkDeque 1000
       (repeat (ReplayBuffer.encode 2 (ReplayBuffer.mkTransition 0 0 1 1 true))
               201))
    2.

(** * Properties *)

(** ** Replay memory: ring eviction *)

Section Deque.
Variable A : Type.

Lemma deque_append_maxlen (d : deque A) (x : A) :
  maxlen (deque_append d x) = maxlen d.
Proof. reflexivity. Qed.

Lemma deque_append_bounded (d : deque A) (x : A) :
  (length (items d) <= maxlen d)%nat ->
  (length (items (deque_append d x)) <= maxlen d)%nat.
Proof.
  intros Hle. unfold deque_append; cbn [items].
  destruct (Nat.ltb_spec (maxlen d) (length (items d ++ [x]))) as [Hlt | Hge].
  - rewrite length_app in Hlt. cbn in Hlt.
    destruct (items d) as [| h t]; cbn in *; [lia |].
    rewrite length_app; cbn; lia.
  - exact Hge.
Qed.

(** Appending a run of items keeps exactly the last [maxlen] of them. *)
Lemma deque_extend (xs : list A) : forall d : deque A,
  (length (items d) <= maxlen d)%nat ->
  let d' := fold_left (@deque_append A) xs d in
  maxlen d' = maxlen d
  /\ items d' = skipn (length (items d ++ xs) - maxlen d) (items d ++ xs).
Proof.
  induction xs as [| x xs IH]; intros d Hle; cbn zeta.
  - cbn [fold_left]. split; [reflexivity |].
    rewrite app_nil_r.
    replace (length (items d) - maxlen d)%nat with 0%nat by lia.
    reflexivity.
  - cbn [fold_left].
    destruct (IH (deque_append d x)) as [Hm Hi].
    { rewrite deque_append_maxlen. now apply deque_append_bounded. }
    rewrite deque_append_maxlen in Hm, Hi.
    split; [exact Hm |]. rewrite Hi. clear IH Hm Hi.
    unfold deque_append; cbn [items].
    destruct (Nat.ltb_spec (maxlen d) (length (items d ++ [x]))) as [Hlt | Hge].
    + rewrite length_app in Hlt; cbn in Hlt.
      assert (Hfull : length (items d) = maxlen d) by lia.
      destruct (items d) as [| h t] eqn:E.
      * cbn in *. rewrite <- Hfull. rewrite !Nat.sub_0_r.
        change (x :: xs) with ([x] ++ xs).
        rewrite skipn_all. symmetry. apply skipn_all2. cbn; lia.
      * cbn [tl app length]. rewrite <- app_assoc. cbn [app].
        cbn [length] in Hfull.
        replace (S (length (t ++ x :: xs)) - maxlen d)%nat
          with (S (length (t ++ x :: xs) - maxlen d)).
        -- reflexivity.
        -- rewrite length_app; cbn [length]. lia.
    + rewrite <- app_assoc. reflexivity.
Qed.
End Deque.

Lemma eye_row_valid (dim : nat) (i : Z) :
  ReplayBuffer.valid_index dim i ->
  ReplayBuffer.eye_row dim i
  = Ok (ReplayBuffer.one_hot dim (ReplayBuffer.row_index dim i)).
Proof.
  unfold ReplayBuffer.valid_index, ReplayBuffer.eye_row, ReplayBuffer.row_index.
  intros [Hlo Hhi].
  destruct (Z.leb_spec 0 i), (Z.ltb_spec i (Z.of_nat dim)),
           (Z.ltb_spec i 0), (Z.leb_spec (- Z.of_nat dim) i);
    cbn; try reflexivity; lia.
Qed.

Lemma store_valid (self : ReplayBuffer.t) (tr : ReplayBuffer.Transition) :
  ReplayBuffer.valid (ReplayBuffer.observation_dim self) tr ->
  ReplayBuffer.store self tr
  = Ok (ReplayBuffer.mkReplayBuffer (ReplayBuffer.capacity self)
          (deque_append (ReplayBuffer.memory self)
             (ReplayBuffer.encode (ReplayBuffer.observation_dim self) tr))
          (ReplayBuffer.observation_dim self)).
Proof.
  intros [Ho Hn]. unfold ReplayBuffer.store.
  rewrite (eye_row_valid Ho), (eye_row_valid Hn). reflexivity.
Qed.

Lemma store_all_valid (ts : list ReplayBuffer.Transition) :
  forall self : ReplayBuffer.t,
  Forall (ReplayBuffer.valid (ReplayBuffer.observation_dim self)) ts ->
  ReplayBuffer.store_all self ts
  = Ok (ReplayBuffer.mkReplayBuffer (ReplayBuffer.capacity self)
          (fold_left (@deque_append _)
             (map (ReplayBuffer.encode (ReplayBuffer.observation_dim self)) ts)
             (ReplayBuffer.memory self))
          (ReplayBuffer.observation_dim self)).
Proof.
  induction ts as [| tr ts IH]; intros self Hall.
  - destruct self; reflexivity.
  - inversion Hall as [| ? ? Htr Hts]; subst.
    cbn [ReplayBuffer.store_all]. rewrite (store_valid _ Htr).
    cbn [bind]. rewrite IH; [reflexivity | exact Hts].
Qed.

(** What the buffer holds after a run of stores into a fresh buffer. *)
Lemma store_all_init (c dim : nat) (ts : list ReplayBuffer.Transition) :
  Forall (ReplayBuffer.valid dim) ts ->
  exists b,
    ReplayBuffer.store_all (ReplayBuffer.init c dim) ts = Ok b
    /\ items (ReplayBuffer.memory b)
       = skipn (length ts - c) (map (ReplayBuffer.encode dim) ts).
Proof.
  intros Hall.
  rewrite (store_all_valid (ReplayBuffer.init c dim) Hall).
  eexists; split; [reflexivity |].
  cbn [ReplayBuffer.memory ReplayBuffer.init ReplayBuffer.observation_dim].
  destruct (@deque_extend _ (map (ReplayBuffer.encode dim) ts) (mkDeque c []))
    as [_ Hi]; [cbn; lia |].
  rewrite Hi. cbn [items maxlen app]. now rewrite length_map.
Qed.

(** C6.  Storing any run of well-formed transitions into a fresh replay
    memory of capacity [c] succeeds; the length never exceeds [c], at the
    end and after every prefix of the run; and after [c + k] stores the
    length is [c] and the memory holds the run without its first [k]
    transitions, in insertion order. *)
Theorem ring_eviction (c dim : nat) (ts : list ReplayBuffer.Transition) :
  Forall (ReplayBuffer.valid dim) ts ->
  exists b,
    ReplayBuffer.store_all (ReplayBuffer.init c dim) ts = Ok b
    /\ (ReplayBuffer.len b <= c)%nat
    /\ (forall i, exists bi,
          ReplayBuffer.store_all (ReplayBuffer.init c dim) (firstn i ts) = Ok bi
          /\ (ReplayBuffer.len bi <= c)%nat)
    /\ (forall k, length ts = (c + k)%nat ->
          ReplayBuffer.len b = c
          /\ items (ReplayBuffer.memory b)
             = skipn k (map (ReplayBuffer.encode dim) ts)).
Proof.
  intros Hall.
  assert (Hlen : forall l, Forall (ReplayBuffer.valid dim) l ->
            exists b, ReplayBuffer.store_all (ReplayBuffer.init c dim) l = Ok b
                      /\ (ReplayBuffer.len b <= c)%nat).
  { intros l Hl. destruct (store_all_init c Hl) as (b & Hb & Hi).
    exists b; split; [exact Hb |]. unfold ReplayBuffer.len. rewrite Hi.
    rewrite length_skipn, length_map. lia. }
  destruct (store_all_init c Hall) as (b & Hb & Hi).
  exists b. split; [exact Hb |]. split.
  - destruct (Hlen ts Hall) as (b' & Hb' & Hle). congruence.
  - split.
    + intros i. apply Hlen. rewrite Forall_forall in *.
      intros tr Hin. apply Hall. rewrite <- (firstn_skipn i ts).
      apply in_or_app. now left.
    + intros k Hk. unfold ReplayBuffer.len. rewrite Hi, Hk.
      replace (c + k - c)%nat with k by lia. split; [| reflexivity].
      rewrite length_skipn, length_map. lia.
Qed.

Lemma ts3_valid : Forall (ReplayBuffer.valid 4) ts3.
Proof.
  unfold ts3, ReplayBuffer.valid, ReplayBuffer.valid_index.
  repeat constructor; cbn; lia.
Defined.

Lemma ring_eviction_witness :
  exists b,
    ReplayBuffer.store_all (ReplayBuffer.init 2 4) ts3 = Ok b
    /\ (ReplayBuffer.len b <= 2)%nat
    /\ (forall i, exists bi,
          ReplayBuffer.store_all (ReplayBuffer.init 2 4) (firstn i ts3) = Ok bi
          /\ (ReplayBuffer.len bi <= 2)%nat)
    /\ (forall k, length ts3 = (2 + k)%nat ->
          ReplayBuffer.len b = 2%nat
          /\ items (ReplayBuffer.memory b)
             = skipn k (map (ReplayBuffer.encode 4) ts3)).
Proof. exact (@ring_eviction 2 4 ts3 ts3_valid). Defined.

(** ** Replay memory: sampling *)

Section SampleLoop.
Variables A B : Type.

Lemma list_set_length (l : list A) : forall j v,
  length (list_set l j v) = length l.
Proof.
  induction l as [| h t IH]; intros [| j] v; cbn; auto.
Qed.

Lemma list_set_map (f : A -> B) (l : list A) : forall j v,
  list_set (map f l) j (f v) = map f (list_set l j v).
Proof.
  induction l as [| h t IH]; intros [| j] v; cbn; auto.
  now rewrite IH.
Qed.

(** The loop does not look at the items: it commutes with [map]. *)
Lemma sample_loop_map (f : A -> B) (k : nat) : forall pool m g,
  sample_loop (map f pool) m k g
  = (map f (fst (sample_loop pool m k g)), snd (sample_loop pool m k g)).
Proof.
  induction k as [| k IH]; intros pool m g; cbn [sample_loop].
  - reflexivity.
  - destruct (randbelow m g) as [j g1].
    rewrite !nth_error_map.
    destruct (nth_error pool j) as [x |]; cbn [option_map]; [| reflexivity].
    destruct (nth_error pool (m - 1)) as [y |]; cbn [option_map]; [| reflexivity].
    rewrite list_set_map, IH.
    destruct (sample_loop (list_set pool j y) (m - 1) k g1); reflexivity.
Qed.

Lemma firstn_snoc (l : list A) : forall n y,
  nth_error l n = Some y -> firstn (S n) l = firstn n l ++ [y].
Proof.
  induction l as [| h t IH]; intros [| n] y H; cbn in *; try discriminate.
  - now inversion H.
  - now rewrite (IH n y H).
Qed.

(** One pick: the picked item and the shrunk pool make up the old pool. *)
Lemma pick_permutation (pool : list A) : forall j m x y,
  (j < m)%nat ->
  nth_error pool j = Some x ->
  nth_error pool (m - 1) = Some y ->
  Permutation (firstn m pool) (x :: firstn (m - 1) (list_set pool j y)).
Proof.
  induction pool as [| h t IH]; intros j m x y Hj Hx Hy.
  - destruct j; discriminate.
  - destruct m as [| m]; [lia |].
    replace (S m - 1)%nat with m in * by lia.
    destruct j as [| j]; cbn [nth_error list_set] in *.
    + inversion Hx; subst h. cbn [firstn]. apply perm_skip.
      destruct m as [| m].
      * reflexivity.
      * cbn [nth_error] in Hy.
        rewrite (firstn_snoc _ _ Hy), firstn_cons. symmetry.
        apply Permutation_cons_append.
    + destruct m as [| m]; [lia |].
      cbn [nth_error] in Hy. rewrite !firstn_cons.
      rewrite perm_swap. apply perm_skip.
      specialize (IH j (S m) x y).
      replace (S m - 1)%nat with m in IH by lia.
      apply IH; [lia | exact Hx | exact Hy].
Qed.

(** [k] picks return [k] items which, with some remainder, are the first
    [m] items of the pool. *)
Lemma sample_loop_picks (k : nat) : forall (pool : list A) m g,
  (k <= m <= length pool)%nat ->
  length (fst (sample_loop pool m k g)) = k
  /\ exists rest,
       Permutation (firstn m pool) (fst (sample_loop pool m k g) ++ rest).
Proof.
  induction k as [| k IH]; intros pool m g [Hk Hm]; cbn [sample_loop].
  - split; [reflexivity |]. now exists (firstn m pool).
  - unfold randbelow.
    set (j := N.to_nat (draws g (cursor g) mod N.of_nat m)).
    assert (Hj : (j < m)%nat).
    { pose proof (N.mod_upper_bound (draws g (cursor g)) (N.of_nat m)).
      unfold j. lia. }
    destruct (nth_error pool j) as [x |] eqn:Ex.
    2:{ apply nth_error_None in Ex. lia. }
    destruct (nth_error pool (m - 1)) as [y |] eqn:Ey.
    2:{ apply nth_error_None in Ey. lia. }
    destruct (IH (list_set pool j y) (m - 1)%nat
                 (mkRandom (draws g) (S (cursor g)))) as [Hl [rest Hp]].
    { rewrite list_set_length. lia. }
    destruct (sample_loop (list_set pool j y) (m - 1) k
                (mkRandom (draws g) (S (cursor g)))) as [res g2].
    cbn [fst] in *. split; [cbn; now rewrite Hl |].
    exists rest. rewrite (pick_permutation pool Hj Ex Ey).
    cbn [app]. now apply perm_skip.
Qed.

End SampleLoop.

Section SamplePositions.
Variable A : Type.

Lemma combine_seq_lookup (l : list A) : forall s i e,
  In (i, e) (combine (seq s (length l)) l) ->
  nth_error l (i - s) = Some e.
Proof.
  induction l as [| h t IH]; intros s i e Hin; cbn in Hin.
  - contradiction.
  - destruct Hin as [Heq | Hin].
    + inversion Heq; subst. now rewrite Nat.sub_diag.
    + assert (Hs : (S s <= i)%nat).
      { apply in_combine_l in Hin. apply in_seq in Hin. lia. }
      specialize (IH _ _ _ Hin).
      replace (i - s)%nat with (S (i - S s)) by lia. exact IH.
Qed.

(** [random.sample] returns the items at [k] pairwise different
    positions of the population. *)
Lemma random_sample_positions (l : list A) (k : nat) (g : RandomState) :
  (k <= length l)%nat ->
  exists idx res,
    fst (random_sample l k g) = Ok res
    /\ length idx = k /\ length res = k /\ NoDup idx
    /\ Forall2 (fun i e => nth_error l i = Some e) idx res.
Proof.
  intros Hk. unfold random_sample.
  destruct (Nat.leb_spec k (length l)) as [_ | Hlt]; [| lia].
  set (pl := combine (seq 0 (length l)) l).
  assert (Hsnd : map snd pl = l).
  { unfold pl. clear. generalize 0%nat. induction l as [| h t IH]; intros s.
    - reflexivity.
    - cbn. now rewrite IH. }
  assert (Hfst : map fst pl = seq 0 (length l)).
  { unfold pl. clear. generalize 0%nat. induction l as [| h t IH]; intros s.
    - reflexivity.
    - cbn. now rewrite IH. }
  assert (Hlen : length pl = length l).
  { unfold pl. rewrite length_combine, length_seq. lia. }
  pose proof (@sample_loop_picks _ k pl (length l) g) as Hp.
  destruct Hp as [Hl [rest Hperm]]; [lia |].
  rewrite <- Hlen in Hperm at 1. rewrite firstn_all in Hperm.
  set (R := fst (sample_loop pl (length l) k g)) in *.
  exists (map fst R), (map snd R).
  assert (HR : Forall (fun p => nth_error l (fst p) = Some (snd p)) R).
  { rewrite Forall_forall. intros [i e] Hin. cbn.
    assert (Hpl : In (i, e) pl).
    { eapply Permutation_in; [symmetry; exact Hperm |].
      apply in_or_app; now left. }
    apply combine_seq_lookup in Hpl. now rewrite Nat.sub_0_r in Hpl. }
  split; [| split; [| split; [| split]]].
  - pose proof (sample_loop_map (@snd nat A) k pl (length l) g) as E.
    rewrite Hsnd in E. rewrite E. reflexivity.
  - now rewrite length_map.
  - now rewrite length_map.
  - assert (Hnd : NoDup (map fst (R ++ rest))).
    { eapply Permutation_NoDup; [apply Permutation_map; exact Hperm |].
      rewrite Hfst. apply seq_NoDup. }
    rewrite map_app in Hnd. now apply NoDup_app_remove_r in Hnd.
  - clear - HR. induction HR as [| p R' Hp _ IH]; cbn; constructor; auto.
Qed.
End SamplePositions.

(** C5, as the code has it.  [sample(n)] with [1 <= n <= length()] returns
    the entries at [n] pairwise different positions of the memory, as five
    parallel sequences in which position [i] of each comes from the same
    entry; [sample(n)] with [n > length()] raises [ValueError]. *)
Theorem sample_bounds (b : ReplayBuffer.t) (n : nat) (g : RandomState) :
  ((1 <= n <= ReplayBuffer.len b)%nat ->
   exists idx es,
     fst (fst (ReplayBuffer.sample b n g)) = Ok (ReplayBuffer.batch_of es)
     /\ length idx = n /\ length es = n /\ NoDup idx
     /\ Forall2 (fun i e => nth_error (items (ReplayBuffer.memory b)) i = Some e)
                idx es)
  /\ ((ReplayBuffer.len b < n)%nat ->
      fst (fst (ReplayBuffer.sample b n g)) = Raise ValueError).
Proof.
  unfold ReplayBuffer.len, ReplayBuffer.sample. split.
  - intros [Hpos Hle].
    destruct (random_sample_positions (items (ReplayBuffer.memory b)) g Hle)
      as (idx & es & Hs & Hi & He & Hnd & Hf).
    exists idx, es.
    destruct (random_sample (items (ReplayBuffer.memory b)) n g) as [r g'].
    cbn [fst] in *. subst r. cbn [bind].
    repeat split; auto.
    destruct es as [| e es']; [cbn in He; lia | reflexivity].
  - intros Hlt. unfold random_sample.
    destruct (Nat.leb_spec n (length (items (ReplayBuffer.memory b))));
      [lia | reflexivity].
Qed.

Lemma sample_bounds_witness :
  (exists idx es,
     fst (fst (ReplayBuffer.sample buffer2 2 g0)) = Ok (ReplayBuffer.batch_of es)
     /\ length idx = 2%nat /\ length es = 2%nat /\ NoDup idx
     /\ Forall2 (fun i e =>
                   nth_error (items (ReplayBuffer.memory buffer2)) i = Some e)
                idx es)
  /\ fst (fst (ReplayBuffer.sample buffer2 3 g0)) = Raise ValueError.
Proof.
  split.
  - apply (proj1 (sample_bounds buffer2 2 g0)). cbn. lia.
  - apply (proj2 (sample_bounds buffer2 3 g0)). cbn. lia.
Defined.

(** [sample(0)] is within [n <= length()] and does not return: the five-way
    unpacking of an empty [zip] raises. *)
Lemma sample_zero_raises :
  (0 <= ReplayBuffer.len buffer2)%nat
  /\ fst (fst (ReplayBuffer.sample buffer2 0 g0)) = Raise ValueError.
Proof. split; [cbn; lia | reflexivity]. Qed.

(** C10.  [sample(n)] with [n <= length()] leaves the replay memory as it
    was: same entries, same count, same order. *)
Theorem sample_read_only (b : ReplayBuffer.t) (n : nat) (g : RandomState) :
  (n <= ReplayBuffer.len b)%nat ->
  snd (fst (ReplayBuffer.sample b n g)) = b.
Proof.
  intros _. unfold ReplayBuffer.sample.
  destruct (random_sample (items (ReplayBuffer.memory b)) n g). reflexivity.
Qed.

Lemma sample_read_only_witness :
  snd (fst (ReplayBuffer.sample buffer2 2 g0)) = buffer2.
Proof. apply sample_read_only. cbn. lia. Defined.

(** ** Target distribution builder *)

Lemma clamp_range (lo hi x : Q) : lo <= hi -> lo <= clamp lo hi x <= hi.
Proof.
  intros Hle. unfold clamp. split.
  - apply Q.min_glb; [apply Q.le_max_r | exact Hle].
  - apply Q.le_min_r.
Qed.

(** C4.  Every entry of the [target_dist] that [get_target_distribution]
    returns lies in [0, 1], whatever the rewards, [gamma], the done flags
    and the target model's quantiles. *)
Theorem target_clamp (target_model : QR_DQN.t)
    (next_observation : list (list Q)) (reward done : list Q) (gamma : Q)
    (action_dim quant_num : nat) (target_dist tau : list (list Q)) :
  get_target_distribution target_model next_observation reward done gamma
                          action_dim quant_num = Ok (target_dist, tau) ->
  Forall (Forall (fun x => 0 <= x <= 1)) target_dist.
Proof.
  unfold get_target_distribution.
  destruct (mapM argmax _) as [next_action | e]; cbn [bind]; [| discriminate].
  destruct quant_num as [| q]; [discriminate |].
  intros H. injection H as Htd _. subst target_dist.
  apply Forall_map, Forall_forall. intros row _.
  apply Forall_map, Forall_forall. intros x _.
  apply clamp_range. discriminate.
Qed.

Lemma target_clamp_witness :
  Forall (Forall (fun x => 0 <= x <= 1)) [[0.297; 0.099; 0.198]].
Proof.
  apply (@target_clamp net3 [[1; 0]] [0] [0] 0.99 1 3
           [[0.297; 0.099; 0.198]] [[90 # 180; 150 # 180; 30 # 180]]).
  vm_compute. reflexivity.
Defined.

(** C1 on the code.  With [next_dist = [0.3, 0.1, 0.2]] the builder returns
    [tau = [tau_hat[1], tau_hat[2], tau_hat[0]]]: slot [j] receives
    [tau_hat[quant_idx[j]]], the midpoint indexed by the position of the
    [j]-th smallest value, not the midpoint of the rank of slot [j].  The
    slots 1, 2 and 0, which hold the smallest, middle and largest value, do
    not receive [tau_hat[0]], [tau_hat[1]] and [tau_hat[2]]. *)
Theorem tau_follows_argsort_not_rank :
  exists target_dist tau,
    gather_action (QR_DQN.forward net3 [[1; 0]]) [0%nat] 3 = [[0.3; 0.1; 0.2]]
    /\ argsort [0.3; 0.1; 0.2] = [1%nat; 2%nat; 0%nat]
    /\ get_target_distribution net3 [[1; 0]] [0] [0] 0.99 1 3
       = Ok (target_dist, [tau])
    /\ (nth 0 tau 0 == nth 1 (tau_hat 3) 0
        /\ nth 1 tau 0 == nth 2 (tau_hat 3) 0
        /\ nth 2 tau 0 == nth 0 (tau_hat 3) 0)
    /\ (~ nth 1 tau 0 == nth 0 (tau_hat 3) 0
        /\ ~ nth 2 tau 0 == nth 1 (tau_hat 3) 0
        /\ ~ nth 0 tau 0 == nth 2 (tau_hat 3) 0).
Proof.
  eexists _, _.
  split; [vm_compute; reflexivity |].
  split; [vm_compute; reflexivity |].
  split; [vm_compute; reflexivity |].
  split.
  - repeat split; vm_compute; reflexivity.
  - repeat split; intros H; vm_compute in H; discriminate.
Qed.

(** ** Trainer: the loss *)

Lemma Qabs_sq (u : Q) : Qabs u * Qabs u == u * u.
Proof.
  apply (Qabs_case u (fun a => a * a == u * u)); intros _; ring.
Qed.

Lemma clamp_abs (k u : Q) :
  0 <= k ->
  clamp 0 k (Qabs u) == if Qle_bool (Qabs u) k then Qabs u else k.
Proof.
  intros Hk. unfold clamp.
  rewrite (Q.max_l (Qabs u) 0 (Qabs_nonneg u)).
  destruct (Qle_bool (Qabs u) k) eqn:E.
  - apply Qle_bool_iff in E. now apply Q.min_l.
  - apply Q.min_r. apply Qlt_le_weak, Qnot_le_lt. intros H.
    apply Qle_bool_iff in H. congruence.
Qed.

(** The Huber term of [train] is the Huber loss lowered by [0.5 * k^2]. *)
Lemma huber_loss_shift (k u : Q) :
  0 <= k -> huber_loss k u == plain_huber k u - 0.5 * k * k.
Proof.
  intros Hk. unfold huber_loss, plain_huber.
  rewrite (@clamp_abs k u Hk).
  destruct (Qle_bool (Qabs u) k).
  - pose proof (Qabs_sq u) as Hsq.
    setoid_replace (Qabs u ^ 2) with (u * u) by (rewrite <- Hsq; ring).
    ring.
  - ring.
Qed.

(** The Huber loss itself is never negative. *)
Lemma plain_huber_nonneg (k u : Q) : 0 <= k -> 0 <= plain_huber k u.
Proof.
  intros Hk. unfold plain_huber.
  destruct (Qle_bool (Qabs u) k) eqn:E.
  - nra.
  - assert (k < Qabs u).
    { apply Qnot_le_lt. intros H. apply Qle_bool_iff in H. congruence. }
    nra.
Qed.

(** C2 on the code.  A terminal transition with reward 1 whose value the
    online model predicts exactly ([u = 0], [tau = 0.5], [k = 1],
    [batch_size = 1]) gets the loss [-1/4]: the Huber term of [train] is
    [-0.5 * k^2] at [u = 0]. *)
Theorem loss_negative_at_exact_prediction :
  exists l,
    fst (fst (train net_one net_one buffer1 0.99 1 1 1 1 g0)) = Ok l
    /\ l == - (1 # 4) /\ l < 0
    /\ huber_loss 1 0 == - (1 # 2).
Proof.
  eexists. split; [vm_compute; reflexivity |].
  repeat split; vm_compute; reflexivity.
Qed.

(** ** One quantile: the reduction to ordinary DQN *)

Lemma Qltb_true (x y : Q) : Qltb x y = true <-> x < y.
Proof.
  unfold Qltb. rewrite negb_true_iff, <- not_true_iff_false, Qle_bool_iff.
  split; [apply Qnot_le_lt | apply Qlt_not_le].
Qed.

Lemma Qltb_false (x y : Q) : Qltb x y = false <-> y <= x.
Proof.
  unfold Qltb. rewrite negb_false_iff, Qle_bool_iff. reflexivity.
Qed.

#[local] Instance clamp_compat : Proper (Qeq ==> Qeq ==> Qeq ==> Qeq) clamp.
Proof.
  intros lo lo' Hlo hi hi' Hhi x x' Hx. unfold clamp.
  now rewrite Hlo, Hhi, Hx.
Qed.

(** The scan of [argmax] ends on the position of [maximum]. *)
Lemma argmax_from_maximum (l : list Q) : forall pre best besti,
  (besti < length pre)%nat ->
  nth besti pre 0 = best ->
  let a := argmax_from l (length pre) best besti in
  (a < length (pre ++ l))%nat
  /\ nth a (pre ++ l) 0
     = fold_left (fun a b => if Qltb a b then b else a) l best.
Proof.
  induction l as [| x l IH]; intros pre best besti Hlt Hnth; cbn zeta.
  - cbn [argmax_from fold_left]. rewrite app_nil_r. auto.
  - cbn [argmax_from fold_left].
    replace (pre ++ x :: l) with ((pre ++ [x]) ++ l)
      by (now rewrite <- app_assoc).
    replace (S (length pre)) with (length (pre ++ [x]))
      by (rewrite length_app; cbn; lia).
    destruct (Qltb best x).
    + apply IH.
      * rewrite length_app; cbn; lia.
      * rewrite app_nth2, Nat.sub_diag by lia. reflexivity.
    + apply IH.
      * rewrite length_app; cbn; lia.
      * now rewrite app_nth1.
Qed.

Lemma argmax_maximum (l : list Q) (a : nat) :
  argmax l = Ok a -> (a < length l)%nat /\ nth a l 0 = maximum l.
Proof.
  destruct l as [| x l]; cbn [argmax]; [discriminate |].
  intros H. injection H as <-.
  exact (@argmax_from_maximum l [x] x 0%nat (Nat.lt_0_succ 0) eq_refl).
Qed.

(** [maximum] is an entry of the list and bounds every entry. *)
Lemma maximum_spec (l : list Q) :
  l <> [] -> In (maximum l) l /\ Forall (fun x => x <= maximum l) l.
Proof.
  destruct l as [| x l]; [congruence | intros _].
  cbn [maximum].
  assert (H : forall l b,
    let m := fold_left (fun a b => if Qltb a b then b else a) l b in
    (m = b \/ In m l) /\ b <= m /\ Forall (fun x => x <= m) l).
  { clear. induction l as [| y l IH]; intros b; cbn zeta; cbn [fold_left].
    - repeat split; [now left | apply Qle_refl | constructor].
    - destruct (Qltb b y) eqn:E.
      + apply Qltb_true in E.
        destruct (IH y) as ([Hm | Hm] & Hle & Hall).
        * repeat split.
          -- right; left. now symmetry.
          -- apply Qlt_le_weak. eapply Qlt_le_trans; eauto.
          -- constructor; auto.
        * repeat split.
          -- right; right; exact Hm.
          -- apply Qlt_le_weak. eapply Qlt_le_trans; eauto.
          -- constructor; auto.
      + apply Qltb_false in E.
        destruct (IH b) as ([Hm | Hm] & Hle & Hall).
        * repeat split; [now left | exact Hle |].
          constructor; [eapply Qle_trans; eauto | exact Hall].
        * repeat split; [right; right; exact Hm | exact Hle |].
          constructor; [eapply Qle_trans; eauto | exact Hall]. }
  destruct (H l x) as ([Hm | Hm] & Hle & Hall).
  - split; [left; now symmetry | constructor; auto].
  - split; [right; exact Hm | constructor; auto].
Qed.

(** With one quantile the mean of an action's row is its only entry. *)
Lemma mean_single (row : list Q) :
  (length row <= 1)%nat -> mean row == nth 0 row 0.
Proof.
  destruct row as [| x [| y row]]; cbn [length]; intros H; try lia.
  - reflexivity.
  - unfold mean, sum. cbn [fold_right length nth Z.of_nat].
    change (inject_Z (Z.of_nat 1)) with 1. field.
Qed.

Lemma view_rows_short (action_dim : nat) (x : list Q) :
  Forall (fun row => (length row <= 1)%nat) (QR_DQN.view action_dim 1 x).
Proof.
  unfold QR_DQN.view. apply Forall_map, Forall_forall. intros a _.
  apply firstn_le_length.
Qed.

Lemma forward_rows_short (m : QR_DQN.t) (observation : list (list Q)) :
  QR_DQN.quant_num m = 1%nat ->
  Forall (Forall (fun row => (length row <= 1)%nat))
         (QR_DQN.forward m observation).
Proof.
  intros Hq. unfold QR_DQN.forward. apply Forall_map, Forall_forall.
  intros o _. rewrite Hq. apply view_rows_short.
Qed.

Lemma mapM_Forall2 {A B} (f : A -> Result B) (l : list A) : forall bs,
  mapM f l = Ok bs -> Forall2 (fun a b => f a = Ok b) l bs.
Proof.
  induction l as [| a l IH]; intros bs H; cbn [mapM] in H.
  - injection H as <-. constructor.
  - destruct (f a) as [b | e] eqn:Ea; cbn [bind] in H; [| discriminate].
    destruct (mapM f l) as [bs' | e]; cbn [bind] in H; [| discriminate].
    injection H as <-. constructor; auto.
Qed.

Lemma map2_length {A B C} (f : A -> B -> C) (l1 : list A) : forall l2,
  length (map2 f l1 l2) = Nat.min (length l1) (length l2).
Proof.
  induction l1 as [| a l1 IH]; intros [| b l2]; cbn; auto.
Qed.

(** The value gathered for the greedy action is the largest Q-value. *)
Lemma greedy_value (rows : list (list Q)) (a : nat) :
  Forall (fun row => (length row <= 1)%nat) rows ->
  argmax (map mean rows) = Ok a ->
  nth 0 (nth a rows []) 0 == maximum (map mean rows).
Proof.
  intros Hshort Ha. apply argmax_maximum in Ha. destruct Ha as [Hlt Hmax].
  rewrite length_map in Hlt. rewrite <- Hmax.
  rewrite (nth_indep (map mean rows) 0 (mean []))
    by (now rewrite length_map).
  rewrite map_nth. symmetry. apply mean_single.
  rewrite Forall_forall in Hshort. apply Hshort. now apply nth_In.
Qed.

Section OneQuantile.
Variable gamma : Q.

(** The clamped Bellman targets, sample by sample. *)
Lemma targets_are_dqn (N3 : list (list (list Q))) (acts : list nat) :
  Forall2 (fun rows a => argmax (map mean rows) = Ok a) N3 acts ->
  Forall (Forall (fun row => (length row <= 1)%nat)) N3 ->
  forall reward done : list Q,
  Forall2 (fun row y => Forall2 Qeq row [y])
    (map (map (clamp 0 1))
       (map2 (map2 Qplus) (expand reward 1)
          (map2 (map2 Qmult)
             (map (map (fun d => gamma * (1 - d))) (expand done 1))
             (gather_action N3 acts 1))))
    (map2 (fun rd q => dqn_target gamma (fst rd) (snd rd) q)
          (combine reward done) (map (map mean) N3)).
Proof.
  induction 1 as [| rows a N3 acts Ha _ IH]; intros Hshort reward done.
  - destruct reward as [| r rs]; [constructor |].
    destruct done as [| d ds]; constructor.
  - inversion Hshort as [| ? ? Hrows Hrest]; subst.
    destruct reward as [| r rs]; [constructor |].
    destruct done as [| d ds]; [constructor |].
    cbn [expand map combine map2 gather_action repeat seq fst snd].
    constructor.
    + constructor; [| constructor].
      unfold dqn_target.
      now rewrite (greedy_value Hrows Ha).
    + apply (IH Hrest rs ds).
Qed.
End OneQuantile.

(** With one quantile every row of [tau] is [[0.5]]. *)
Lemma tau_is_half (N3 : list (list (list Q))) (acts : list nat) :
  Forall (fun row => Forall2 Qeq row [1 # 2])
    (gather_tau (tau_hat 1) (map argsort (gather_action N3 acts 1))).
Proof.
  unfold gather_tau, gather_action.
  apply Forall_map, Forall_map, Forall_forall. intros row Hin.
  assert (Hrow : exists v, row = [v]).
  { clear - Hin. revert acts Hin.
    induction N3 as [| d N3 IH]; intros [| a acts] Hin; cbn in Hin;
      try contradiction.
    destruct Hin as [<- | Hin]; [eauto | eapply IH; eauto]. }
  destruct Hrow as [v ->]. cbn.
  constructor; [| constructor]. vm_compute. reflexivity.
Qed.

(** With [tau = 0.5] the quantile weight is one half on either side. *)
Lemma quantile_loss_half (k t u : Q) :
  t == 1 # 2 -> quantile_loss k t u == (1 # 2) * huber_loss k u.
Proof.
  intros Ht. unfold quantile_loss. rewrite Ht.
  destruct (Qltb u 0); apply Qmult_comp; try reflexivity.
Qed.

Lemma loss_half (k : Q) (batch_size : nat) (u : list (list Q)) :
  forall tau : list (list Q),
  Forall (fun row => Forall2 Qeq row [1 # 2]) tau ->
  (length u <= length tau)%nat ->
  Forall (fun row => (length row <= 1)%nat) u ->
  loss k tau u batch_size
  == sum (map (fun x => (1 # 2) * huber_loss k x) (concat u))
     / inject_Z (Z.of_nat batch_size).
Proof.
  intros tau Htau Hlen Hu. unfold loss.
  apply Qmult_comp; [| reflexivity].
  revert tau Htau Hlen. induction Hu as [| r u Hr Hu IH]; intros tau Htau Hlen.
  - destruct tau; reflexivity.
  - destruct tau as [| t tau]; [cbn in Hlen; lia |].
    inversion Htau as [| ? ? Ht Htau']; subst.
    inversion Ht as [| t0 ? ? ? Ht0 Hnil]; subst. inversion Hnil; subst.
    assert (Hlen' : (length u <= length tau)%nat) by (cbn in Hlen; lia).
    specialize (IH tau Htau' Hlen').
    destruct r as [| x [| y r]]; [| | cbn in Hr; lia].
    + cbn [map2 map concat app]. unfold sum in *. cbn [fold_right].
      rewrite IH. ring.
    + cbn [map2 map concat app]. unfold sum in *. cbn [fold_right].
      rewrite IH, (quantile_loss_half k x Ht0). ring.
Qed.

Lemma map2_rows_short {A} (f : Q -> A -> Q) (td : list (list Q)) :
  forall dist : list (list A),
  Forall (fun row => (length row <= 1)%nat) td ->
  Forall (fun row => (length row <= 1)%nat) (map2 (map2 f) td dist).
Proof.
  induction td as [| r td IH]; intros [| d dist] H; cbn [map2];
    try constructor.
  - inversion H; subst. rewrite map2_length. lia.
  - inversion H; subst. now apply IH.
Qed.

(** C3, as the code has it.  With [quant_num = 1], for every batch on which
    [train] reaches its loss: the target of each sample is the clamped
    [reward + gamma * (1 - done) * max_a Q(next_obs, a)] over the target
    model's Q-values, [tau] is [0.5] everywhere, and the loss is the sum
    over the batch of one half of the trainer's Huber term of the
    target-minus-prediction error, divided by [batch_size]. *)
Theorem one_quantile_is_dqn (eval_model target_model : QR_DQN.t)
    (batch : ReplayBuffer.Batch) (gamma : Q) (action_dim batch_size : nat)
    (k l : Q) :
  QR_DQN.quant_num target_model = 1%nat ->
  train_batch eval_model target_model batch gamma action_dim 1 batch_size k
  = Ok l ->
  let reward := ReplayBuffer.b_reward batch in
  let done := map float_of_bool (ReplayBuffer.b_done batch) in
  let q_next :=
    map (map mean)
        (QR_DQN.forward target_model (ReplayBuffer.b_next_observation batch)) in
  let dist :=
    gather_action (QR_DQN.forward eval_model (ReplayBuffer.b_observation batch))
                  (map Z.to_nat (ReplayBuffer.b_action batch)) 1 in
  exists target_dist tau,
    get_target_distribution target_model
      (ReplayBuffer.b_next_observation batch) reward done gamma action_dim 1
    = Ok (target_dist, tau)
    /\ Forall2 (fun row y => Forall2 Qeq row [y]) target_dist
         (map2 (fun rd q => dqn_target gamma (fst rd) (snd rd) q)
               (combine reward done) q_next)
    /\ Forall (fun row => Forall2 Qeq row [1 # 2]) tau
    /\ l == sum (map (fun u => (1 # 2) * huber_loss k u)
                     (concat (map2 (map2 Qminus) target_dist dist)))
            / inject_Z (Z.of_nat batch_size).
Proof.
  intros Hq Htrain reward done q_next dist.
  unfold train_batch in Htrain. fold reward done dist in Htrain.
  destruct (get_target_distribution target_model
              (ReplayBuffer.b_next_observation batch) reward done gamma
              action_dim 1) as [[target_dist tau] | e] eqn:E;
    cbn [bind] in Htrain; [| discriminate].
  injection Htrain as <-.
  exists target_dist, tau. split; [reflexivity |].
  unfold get_target_distribution in E.
  destruct (mapM argmax _) as [acts | e] eqn:EM; cbn [bind] in E;
    [| discriminate].
  injection E as Htd Htau.
  apply mapM_Forall2 in EM.
  assert (EM' : Forall2 (fun rows a => argmax (map mean rows) = Ok a)
                  (QR_DQN.forward target_model
                     (ReplayBuffer.b_next_observation batch)) acts).
  { clear - EM. remember (map (map mean) _) as qs eqn:Hqs.
    revert Hqs. generalize (QR_DQN.forward target_model
                              (ReplayBuffer.b_next_observation batch)).
    induction EM as [| q a qs acts Hq _ IH]; intros [| rows N3] Hqs;
      cbn [map] in Hqs; try discriminate; constructor.
    - injection Hqs as -> _. exact Hq.
    - injection Hqs as _ ->. now apply IH. }
  pose proof (forward_rows_short target_model
                (ReplayBuffer.b_next_observation batch) Hq) as Hshort.
  pose proof (targets_are_dqn gamma EM' Hshort reward done) as Htargets.
  rewrite Htd in Htargets.
  pose proof (tau_is_half (QR_DQN.forward target_model
                             (ReplayBuffer.b_next_observation batch)) acts)
    as Hhalf.
  rewrite Htau in Hhalf.
  split; [exact Htargets |]. split; [exact Hhalf |].
  apply loss_half.
  - exact Hhalf.
  - rewrite <- Htd, <- Htau. unfold gather_tau.
    rewrite map2_length, !length_map, !map2_length.
    rewrite !length_map. lia.
  - apply map2_rows_short.
    clear - Htargets. induction Htargets as [| row y ? ? Hrow _ IH];
      constructor; auto.
    inversion Hrow as [| ? ? ? ? _ Hnil]; subst. inversion Hnil; subst.
    cbn. lia.
Qed.

Lemma one_quantile_is_dqn_witness :
  exists target_dist tau,
    get_target_distribution net_one
      (ReplayBuffer.b_next_observation batch1) (ReplayBuffer.b_reward batch1)
      (map float_of_bool (ReplayBuffer.b_done batch1)) 0.99 1 1
    = Ok (target_dist, tau)
    /\ Forall2 (fun row y => Forall2 Qeq row [y]) target_dist
         (map2 (fun rd q => dqn_target 0.99 (fst rd) (snd rd) q)
               (combine (ReplayBuffer.b_reward batch1)
                        (map float_of_bool (ReplayBuffer.b_done batch1)))
               (map (map mean)
                    (QR_DQN.forward net_one
                       (ReplayBuffer.b_next_observation batch1))))
    /\ Forall (fun row => Forall2 Qeq row [1 # 2]) tau
    /\ 0.50000
       == sum (map (fun u => (1 # 2) * huber_loss 1 u)
                   (concat
                      (map2 (map2 Qminus) target_dist
                         (gather_action
                            (QR_DQN.forward net_minus_one
                               (ReplayBuffer.b_observation batch1))
                            (map Z.to_nat (ReplayBuffer.b_action batch1)) 1))))
          / inject_Z (Z.of_nat 1).
Proof.
  apply (@one_quantile_is_dqn net_minus_one net_one batch1 0.99 1 1 1 0.50000).
  - reflexivity.
  - vm_compute. reflexivity.
Defined.

(** The online model predicts [-1] for a terminal transition with reward 1:
    the error is [u = 2], the trainer's loss is [1/2], the Huber loss of
    [u] with [k = 1] is [3/2]. *)
Lemma one_quantile_loss_not_plain_huber :
  QR_DQN.quant_num net_one = 1%nat
  /\ exists l,
       train_batch net_minus_one net_one batch1 0.99 1 1 1 1 = Ok l
       /\ l == 1 # 2
       /\ plain_huber_loss 1 [1 - -1] == 3 # 2
       /\ ~ l == plain_huber_loss 1 [1 - -1].
Proof.
  split; [reflexivity |]. eexists.
  split; [vm_compute; reflexivity |].
  split; [vm_compute; reflexivity |].
  split; [vm_compute; reflexivity |].
  intros H. vm_compute in H. discriminate.
Qed.

(** ** Epsilon schedule *)

Lemma decay_le (epsilon : Q) : Main.decay epsilon <= epsilon.
Proof.
  unfold Main.decay, Main.max, Main.epsilon_min, Main.epsilon_decay.
  destruct (Qltb 0.01 epsilon) eqn:E1; [| apply Qle_refl].
  apply Qltb_true in E1.
  destruct (Qltb (epsilon * 0.995) 0.01) eqn:E2.
  - now apply Qlt_le_weak.
  - lra.
Qed.

Lemma decay_ge_min (epsilon : Q) :
  Main.epsilon_min <= epsilon -> Main.epsilon_min <= Main.decay epsilon.
Proof.
  unfold Main.decay, Main.max, Main.epsilon_min, Main.epsilon_decay.
  intros Hmin.
  destruct (Qltb 0.01 epsilon) eqn:E1; [| exact Hmin].
  destruct (Qltb (epsilon * 0.995) 0.01) eqn:E2.
  - apply Qle_refl.
  - now apply Qltb_false in E2.
Qed.

(** Within an episode [epsilon] changes on the closing step only. *)
Lemma episode_epsilon (steps : list bool) : forall st : Main.LoopState,
  Main.epsilon (Main.episode steps st)
  = if existsb (fun d => d) steps then Main.decay (Main.epsilon st)
    else Main.epsilon st.
Proof.
  induction steps as [| d steps IH]; intros st; cbn [Main.episode existsb].
  - reflexivity.
  - destruct d; cbn [orb].
    + reflexivity.
    + rewrite IH. reflexivity.
Qed.

Lemma episode_le (steps : list bool) (st : Main.LoopState) :
  Main.epsilon (Main.episode steps st) <= Main.epsilon st.
Proof.
  rewrite episode_epsilon.
  destruct (existsb _ steps); [apply decay_le | apply Qle_refl].
Qed.

Lemma episode_ge_min (steps : list bool) (st : Main.LoopState) :
  Main.epsilon_min <= Main.epsilon st ->
  Main.epsilon_min <= Main.epsilon (Main.episode steps st).
Proof.
  intros H. rewrite episode_epsilon.
  destruct (existsb _ steps); [now apply decay_ge_min | exact H].
Qed.

(** C7, as the code has it.  In an episode [epsilon] is updated once, on
    the step that ends it, by
    [if epsilon > epsilon_min: epsilon = max(epsilon * decay, epsilon_min)],
    and not at all while the episode runs; for every initial [epsilon] the
    values after successive episodes are non-increasing; and when the
    initial [epsilon] is at least [epsilon_min], no value is below
    [epsilon_min]. *)
Theorem epsilon_schedule (traces : list (list bool)) (st : Main.LoopState) :
  (forall steps st',
     Main.epsilon (Main.episode steps st')
     = if existsb (fun d => d) steps then Main.decay (Main.epsilon st')
       else Main.epsilon st')
  /\ Main.nonincreasing (Main.epsilon st :: Main.run traces st)
  /\ (Main.epsilon_min <= Main.epsilon st ->
      Forall (fun e => Main.epsilon_min <= e) (Main.run traces st)).
Proof.
  split; [intros; apply episode_epsilon |].
  split.
  - revert st. induction traces as [| steps traces IH]; intros st.
    + exact I.
    + cbn [Main.run]. split; [apply episode_le | apply IH].
  - revert st. induction traces as [| steps traces IH]; intros st Hmin.
    + constructor.
    + cbn [Main.run]. constructor.
      * now apply episode_ge_min.
      * apply IH. now apply episode_ge_min.
Qed.

Lemma epsilon_schedule_witness :
  Main.nonincreasing
    (Main.epsilon_init
     :: Main.run [[false; true]; [true]] (Main.mkLoop Main.epsilon_init 0))
  /\ Forall (fun e => Main.epsilon_min <= e)
       (Main.run [[false; true]; [true]] (Main.mkLoop Main.epsilon_init 0)).
Proof.
  destruct (epsilon_schedule [[false; true]; [true]]
              (Main.mkLoop Main.epsilon_init 0)) as (_ & Hmono & Hmin).
  split; [exact Hmono |]. apply Hmin. vm_compute. discriminate.
Defined.

(** An initial [epsilon] of 0.005 is below [epsilon_min = 0.01]; the guard
    skips the update and the value after the episode is still 0.005, where
    [max(epsilon * decay, epsilon_min)] would be 0.01. *)
Lemma epsilon_below_min_stays :
  Main.run [[true]] (Main.mkLoop 0.005 0) = [0.005]
  /\ ~ Main.epsilon_min <= 0.005
  /\ Main.max (0.005 * Main.epsilon_decay) Main.epsilon_min == 0.01.
Proof.
  split; [reflexivity |]. split.
  - intros H. vm_compute in H. now apply H.
  - vm_compute. reflexivity.
Qed.

(** ** Action selection and the mode flag *)

Lemma train_after_eval (self : QR_DQN.t) :
  QR_DQN.train (QR_DQN.eval self) true = QR_DQN.train self true.
Proof. reflexivity. Qed.

Lemma train_parameters (self : QR_DQN.t) (mode : bool) :
  QR_DQN.parameters (QR_DQN.train self mode) = QR_DQN.parameters self.
Proof. reflexivity. Qed.

(** When [act] returns, the parameters are those at entry and the module
    is in training mode, whatever its mode at entry. *)
Lemma act_returns_in_training (self self' : QR_DQN.t)
    (observation : list (list Q)) (epsilon : Q) (g g' : RandomState)
    (a : nat) :
  QR_DQN.act self observation epsilon g = (Ok a, self', g') ->
  QR_DQN.parameters self' = QR_DQN.parameters self
  /\ self' = QR_DQN.train self true.
Proof.
  unfold QR_DQN.act. destruct (QR_DQN.random g) as [r g1].
  destruct (Qltb epsilon r).
  - destruct (mapM argmax _) as [[| a0 [| a1 l]] | e]; intros H;
      inversion H; subst.
    rewrite train_after_eval. split; reflexivity.
  - destruct (QR_DQN.action_dim (QR_DQN.eval self)) eqn:E.
    + intros H; inversion H.
    + destruct (randbelow _ g1) as [j g2]. intros H; inversion H; subst.
      rewrite train_after_eval. split; reflexivity.
Qed.

(** When [act] raises, [self.train()] has not run: the module stays in
    evaluation mode. *)
Lemma act_raises_in_eval (self self' : QR_DQN.t)
    (observation : list (list Q)) (epsilon : Q) (g g' : RandomState)
    (e : PyError) :
  QR_DQN.act self observation epsilon g = (Raise e, self', g') ->
  self' = QR_DQN.eval self.
Proof.
  unfold QR_DQN.act. destruct (QR_DQN.random g) as [r g1].
  destruct (Qltb epsilon r).
  - destruct (mapM argmax _) as [[| a0 [| a1 l]] | e0]; intros H;
      inversion H; subst; reflexivity.
  - destruct (QR_DQN.action_dim (QR_DQN.eval self)) eqn:E.
    + intros H; inversion H. reflexivity.
    + destruct (randbelow _ g1) as [j g2]. intros H; inversion H.
Qed.

(** C8 on the code.  [net3] is in evaluation mode ([training = False], as
    the target network is after [target_net.eval()]).  A greedy [act] on it
    returns action 0 with the parameters untouched, and leaves the module
    and its four layers in training mode: the flag at entry is not
    restored. *)
Theorem act_leaves_eval_model_in_training :
  QR_DQN.training net3 = false
  /\ exists g',
       QR_DQN.act net3 [[1; 0]] 0.01 g_half
       = (Ok 0%nat, QR_DQN.train net3 true, g')
       /\ QR_DQN.parameters (QR_DQN.train net3 true) = QR_DQN.parameters net3
       /\ QR_DQN.training (QR_DQN.train net3 true) = true
       /\ QR_DQN.train net3 true <> net3.
Proof.
  split; [reflexivity |]. eexists.
  split; [vm_compute; reflexivity |].
  split; [reflexivity |]. split; [reflexivity |].
  intros H. apply (f_equal QR_DQN.training) in H. discriminate.
Qed.

(** ** The environment's reward when the start is the goal *)

Section OnRoadReward.
Import CustomEnv6.
Local Open Scope R_scope.

Lemma norm_axis (z : Z) : (0 <= z)%Z -> norm (z, 0%Z) = IZR z.
Proof.
  intros Hz. unfold norm; cbn [fst snd].
  replace (IZR z * IZR z + 0 * 0) with (IZR z * IZR z) by ring.
  apply sqrt_square. now apply IZR_le.
Qed.

Lemma norm_psub_self (p : Pos) : norm (psub p p) = 0.
Proof.
  unfold psub. rewrite !Z.sub_diag. rewrite (norm_axis (Z.le_refl 0)).
  reflexivity.
Qed.

Lemma norm_zero_iff (v : Pos) : norm v = 0 -> v = (0, 0)%Z.
Proof.
  destruct v as [x y]. unfold norm; cbn [fst snd]. intros H.
  apply sqrt_eq_0 in H; [| nra].
  assert (Hx : IZR x = 0) by nra.
  assert (Hy : IZR y = 0) by nra.
  apply eq_IZR in Hx, Hy. now subst.
Qed.

Lemma fadd_nan_r (a : npfloat) : fadd a NaN = NaN.
Proof. destruct a; reflexivity. Qed.

Lemma fadd_finite (a : npfloat) (r : R) :
  is_finite (fadd a (Finite r)) = is_finite a.
Proof. destruct a; reflexivity. Qed.

Lemma fadd_finite_l (r : R) (a : npfloat) :
  is_finite (fadd (Finite r) a) = is_finite a.
Proof. destruct a; reflexivity. Qed.

Lemma fsub_finite (a : npfloat) (r : R) :
  is_finite (fsub a (Finite r)) = is_finite a.
Proof. destruct a; reflexivity. Qed.

(** What follows the distance term keeps a finite reward finite and a
    non-finite one non-finite. *)
Lemma on_road_reward_tail (self : t) (next_position : Pos) :
  is_finite (_on_road_reward self next_position)
  = is_finite
      (if Rlt_dec (norm (psub next_position (GoalState self)))
                  (norm (psub (OldState self) (GoalState self)))
       then fadd (Finite 0)
              (fadd (Finite 1)
                 (fdiv (0.5 * norm (psub (CurrentState self) (StartState self))
                        - 0.5 * norm (psub next_position (GoalState self)))
                       (norm (psub (StartState self) (GoalState self)))))
       else fsub (Finite 0) (Finite 1)).
Proof.
  unfold _on_road_reward. cbv zeta.
  destruct (marked (StopSigns self) next_position),
           (marked (trafficLights self) next_position);
    repeat (rewrite fsub_finite || rewrite fadd_finite); reflexivity.
Qed.

(** The division is not guarded: when the start is the goal and the move
    brings the vehicle closer to it, the quotient is [0 / 0] and the
    reward is not a number. *)
Lemma on_road_reward_nan (self : t) (next_position : Pos) :
  StartState self = GoalState self ->
  CurrentState self = next_position ->
  norm (psub next_position (GoalState self))
  < norm (psub (OldState self) (GoalState self)) ->
  _on_road_reward self next_position = NaN.
Proof.
  intros Hs Hc Hlt. unfold _on_road_reward. cbv zeta.
  destruct (Rlt_dec _ _) as [_ | Hn]; [| contradiction].
  rewrite Hs, Hc, norm_psub_self. unfold fdiv.
  destruct (Req_dec_T 0 0) as [_ | Hn]; [| congruence].
  destruct (Req_dec_T _ 0) as [_ | Hn].
  - cbn [fadd].
    destruct (marked (StopSigns self) next_position),
             (marked (trafficLights self) next_position); reflexivity.
  - exfalso. apply Hn. ring.
Qed.

(** With a start different from the goal the reward is a number. *)
Lemma on_road_reward_finite (self : t) (next_position : Pos) :
  StartState self <> GoalState self ->
  is_finite (_on_road_reward self next_position) = true.
Proof.
  intros Hs. rewrite on_road_reward_tail.
  destruct (Rlt_dec _ _) as [_ | _]; [| reflexivity].
  unfold fdiv. destruct (Req_dec_T _ 0) as [H0 | _]; [| reflexivity].
  exfalso. apply Hs. apply norm_zero_iff in H0.
  destruct (StartState self) as [sx sy], (GoalState self) as [gx gy].
  unfold psub in H0; cbn [fst snd] in H0.
  injection H0 as Hx Hy. f_equal; lia.
Qed.

(** A move that does not bring the vehicle closer is penalised with a
    number. *)
Lemma on_road_reward_not_closer (self : t) (next_position : Pos) :
  ~ norm (psub next_position (GoalState self))
    < norm (psub (OldState self) (GoalState self)) ->
  is_finite (_on_road_reward self next_position) = true.
Proof.
  intros Hn. rewrite on_road_reward_tail.
  destruct (Rlt_dec _ _) as [H | _]; [contradiction | reflexivity].
Qed.

(** A move onto a free cell away from the goal is rewarded by
    [_on_road_reward]. *)
Lemma step_on_road (self : t) (action : Z) (next_position : Pos) :
  move (CurrentState self) action = Ok next_position ->
  blocked self next_position = false ->
  ~ norm (psub next_position (GoalState self)) < 1 ->
  step self action
  = (Ok (fadd (Finite 0)
           (_on_road_reward (moved self next_position) next_position),
         false),
     moved self next_position).
Proof.
  intros Hm Hb Hg. unfold step. rewrite Hm, Hb.
  change (CurrentState (moved self next_position)) with next_position.
  change (GoalState (moved self next_position)) with (GoalState self).
  destruct (Rlt_dec _ 1) as [H | _]; [contradiction | reflexivity].
Qed.

(** C9 on the code.  On a map whose start cell is the goal cell, two
    moves away from the goal and one move back: the first two rewards are
    numbers, the third is [NaN], from [0 / 0] in the division by the
    start-to-goal norm. *)
Theorem reward_nan_when_start_is_goal :
  StartState env_start_is_goal = GoalState env_start_is_goal
  /\ exists r1 r2 : npfloat,
       step3 (reset env_start_is_goal) 1 1 0
       = [Ok (r1, false); Ok (r2, false); Ok (NaN, false)]
       /\ is_finite r1 = true /\ is_finite r2 = true.
Proof.
  split; [reflexivity |]. unfold step3.
  set (s0 := reset env_start_is_goal).
  rewrite (@step_on_road s0 1 (1, 0)%Z); cycle 1.
  { reflexivity. }
  { reflexivity. }
  { change (psub (1, 0)%Z (GoalState s0)) with (1, 0)%Z.
    rewrite norm_axis by lia. lra. }
  set (s1 := moved s0 (1, 0)%Z).
  rewrite (@step_on_road s1 1 (2, 0)%Z); cycle 1.
  { reflexivity. }
  { reflexivity. }
  { change (psub (2, 0)%Z (GoalState s1)) with (2, 0)%Z.
    rewrite norm_axis by lia. lra. }
  set (s2 := moved s1 (2, 0)%Z).
  rewrite (@step_on_road s2 0 (1, 0)%Z); cycle 1.
  { reflexivity. }
  { reflexivity. }
  { change (psub (1, 0)%Z (GoalState s2)) with (1, 0)%Z.
    rewrite norm_axis by lia. lra. }
  set (s3 := moved s2 (1, 0)%Z).
  rewrite (@on_road_reward_nan s3 (1, 0)%Z); cycle 1.
  { reflexivity. }
  { reflexivity. }
  { change (psub (1, 0)%Z (GoalState s3)) with (1, 0)%Z.
    change (psub (OldState s3) (GoalState s3)) with (2, 0)%Z.
    rewrite !norm_axis by lia. lra. }
  eexists _, _. split; [reflexivity |].
  rewrite !fadd_finite_l. split.
  - apply on_road_reward_not_closer.
    change (psub (1, 0)%Z (GoalState s1)) with (1, 0)%Z.
    change (psub (OldState s1) (GoalState s1)) with (0, 0)%Z.
    rewrite !norm_axis by lia. lra.
  - apply on_road_reward_not_closer.
    change (psub (2, 0)%Z (GoalState s2)) with (2, 0)%Z.
    change (psub (OldState s2) (GoalState s2)) with (1, 0)%Z.
    rewrite !norm_axis by lia. lra.
Qed.
End OnRoadReward.

(** * Further properties of the code *)

(** ** Replay memory *)

Lemma eye_row_invalid (dim : nat) (i : Z) :
  ~ ReplayBuffer.valid_index dim i ->
  ReplayBuffer.eye_row dim i = Raise IndexError.
Proof.
  unfold ReplayBuffer.valid_index, ReplayBuffer.eye_row. intros H.
  destruct (Z.leb_spec 0 i), (Z.ltb_spec i (Z.of_nat dim)),
           (Z.ltb_spec i 0), (Z.leb_spec (- Z.of_nat dim) i);
    cbn; try reflexivity; exfalso; apply H; lia.
Qed.

Lemma valid_index_dec (dim : nat) (i : Z) :
  {ReplayBuffer.valid_index dim i} + {~ ReplayBuffer.valid_index dim i}.
Proof.
  unfold ReplayBuffer.valid_index.
  destruct (Z_le_dec (- Z.of_nat dim) i), (Z_lt_dec i (Z.of_nat dim));
    [left | right | right | right]; lia.
Qed.

(** X1.  [store] appends exactly when both observation indices are rows of
    [np.eye(observation_dim)], that is lie in [-dim, dim); otherwise it
    raises [IndexError] and nothing is stored. *)
Theorem store_succeeds_iff_valid (self : ReplayBuffer.t)
    (tr : ReplayBuffer.Transition) :
  ((exists self', ReplayBuffer.store self tr = Ok self')
   <-> ReplayBuffer.valid (ReplayBuffer.observation_dim self) tr)
  /\ (~ ReplayBuffer.valid (ReplayBuffer.observation_dim self) tr ->
      ReplayBuffer.store self tr = Raise IndexError).
Proof.
  assert (Hbad : ~ ReplayBuffer.valid (ReplayBuffer.observation_dim self) tr ->
                 ReplayBuffer.store self tr = Raise IndexError).
  { intros Hn. unfold ReplayBuffer.store, ReplayBuffer.valid in *.
    destruct (valid_index_dec (ReplayBuffer.observation_dim self)
                (ReplayBuffer.t_observation tr)) as [Ho | Ho].
    - rewrite (eye_row_valid Ho). cbn [bind].
      rewrite eye_row_invalid; [reflexivity | tauto].
    - rewrite (eye_row_invalid Ho). reflexivity. }
  split; [| exact Hbad]. split.
  - intros [self' Hs].
    destruct (valid_index_dec (ReplayBuffer.observation_dim self)
                (ReplayBuffer.t_observation tr)) as [Ho | Ho];
      destruct (valid_index_dec (ReplayBuffer.observation_dim self)
                  (ReplayBuffer.t_next_observation tr)) as [Hn | Hn];
      try (split; assumption);
      rewrite Hbad in Hs by (unfold ReplayBuffer.valid; tauto);
      discriminate.
  - intros Hv. rewrite (store_valid _ Hv). eauto.
Qed.

Lemma store_succeeds_iff_valid_witness :
  ReplayBuffer.store buffer1 (ReplayBuffer.mkTransition 0 0 0 2 false)
  = Raise IndexError.
Proof.
  apply (proj2 (store_succeeds_iff_valid buffer1
                  (ReplayBuffer.mkTransition 0 0 0 2 false))).
  unfold ReplayBuffer.valid, ReplayBuffer.valid_index. cbn. lia.
Defined.

(** X2.  A successful [store] on a memory within its bound makes the length
    [min(length + 1, maxlen)], puts the new entry last (when [maxlen] is
    positive) and keeps the entries that were not evicted in their order:
    the memory is then the old one followed by the new entry, without its
    first entry if it was full. *)
Theorem store_appends (self self' : ReplayBuffer.t)
    (tr : ReplayBuffer.Transition) :
  ReplayBuffer.store self tr = Ok self' ->
  (ReplayBuffer.len self <= maxlen (ReplayBuffer.memory self))%nat ->
  let old := items (ReplayBuffer.memory self) in
  let e := ReplayBuffer.encode (ReplayBuffer.observation_dim self) tr in
  ReplayBuffer.len self'
  = Nat.min (S (ReplayBuffer.len self)) (maxlen (ReplayBuffer.memory self))
  /\ items (ReplayBuffer.memory self')
     = skipn (S (length old) - maxlen (ReplayBuffer.memory self)) (old ++ [e])
  /\ maxlen (ReplayBuffer.memory self') = maxlen (ReplayBuffer.memory self)
  /\ ((0 < maxlen (ReplayBuffer.memory self))%nat ->
      nth_error (items (ReplayBuffer.memory self'))
                (ReplayBuffer.len self' - 1) = Some e).
Proof.
  intros Hs Hle old e.
  assert (Hv : ReplayBuffer.valid (ReplayBuffer.observation_dim self) tr).
  { destruct (valid_index_dec (ReplayBuffer.observation_dim self)
                (ReplayBuffer.t_observation tr)) as [Ho | Ho];
      destruct (valid_index_dec (ReplayBuffer.observation_dim self)
                  (ReplayBuffer.t_next_observation tr)) as [Hn | Hn];
      try (split; assumption); exfalso;
      unfold ReplayBuffer.store in Hs.
    - rewrite (eye_row_valid Ho), (eye_row_invalid Hn) in Hs. discriminate.
    - rewrite (eye_row_invalid Ho) in Hs. discriminate.
    - rewrite (eye_row_invalid Ho) in Hs. discriminate. }
  rewrite (store_valid _ Hv) in Hs. injection Hs as <-.
  unfold ReplayBuffer.len in *. cbn [ReplayBuffer.memory].
  fold e.
  destruct (@deque_extend _ [e] (ReplayBuffer.memory self) Hle) as [Hm Hi].
  cbn [fold_left] in Hm, Hi. fold old in Hi.
  rewrite length_app in Hi. cbn [length] in Hi.
  replace (length old + 1)%nat with (S (length old)) in Hi by lia.
  assert (Hlen : length (items (deque_append (ReplayBuffer.memory self) e))
                 = Nat.min (S (length old)) (maxlen (ReplayBuffer.memory self))).
  { rewrite Hi, length_skipn, length_app. cbn [length]. fold old in Hle. lia. }
  split; [exact Hlen |]. split; [exact Hi |]. split; [exact Hm |].
  intros Hpos. rewrite Hlen, Hi, nth_error_skipn.
  fold old in Hle.
  replace (S (length old) - maxlen (ReplayBuffer.memory self)
           + (Nat.min (S (length old)) (maxlen (ReplayBuffer.memory self)) - 1))%nat
    with (length old) by lia.
  rewrite nth_error_app2, Nat.sub_diag by lia. reflexivity.
Qed.

Lemma store_appends_witness :
  exists self',
    ReplayBuffer.store buffer2 (ReplayBuffer.mkTransition 3 0 0 0 false)
    = Ok self'
    /\ ReplayBuffer.len self' = 2%nat.
Proof.
  eexists. split; [reflexivity |].
  apply (@store_appends buffer2 _ (ReplayBuffer.mkTransition 3 0 0 0 false)
           eq_refl).
  cbn. lia.
Defined.

Lemma sum_indicator (k n : nat) : forall s : nat,
  sum (map (fun j => if (j =? k)%nat then 1 else 0) (seq s n))
  == if ((s <=? k) && (k <? s + n))%nat then 1 else 0.
Proof.
  induction n as [| n IH]; intros s.
  - cbn [seq map sum fold_right].
    destruct (Nat.leb_spec s k), (Nat.ltb_spec k (s + 0)); cbn;
      try reflexivity; lia.
  - cbn [seq map]. unfold sum in *. cbn [fold_right]. rewrite IH.
    destruct (Nat.eqb_spec s k), (Nat.leb_spec (S s) k),
             (Nat.ltb_spec k (S s + n)), (Nat.leb_spec s k),
             (Nat.ltb_spec k (s + S n)); cbn; try reflexivity; lia.
Qed.

(** X3.  The row [np.eye(dim)[i]] that [store] keeps for an observation is a
    one-hot vector of length [dim]: it is 1 at the row index and 0
    elsewhere, so its entries sum to 1; a negative index [i] selects the
    same row as [i + dim]. *)
Theorem eye_row_one_hot (dim : nat) (i : Z) :
  ReplayBuffer.valid_index dim i ->
  exists row,
    ReplayBuffer.eye_row dim i = Ok row
    /\ length row = dim
    /\ (ReplayBuffer.row_index dim i < dim)%nat
    /\ (forall j, (j < dim)%nat ->
          nth j row 0
          = if (j =? ReplayBuffer.row_index dim i)%nat then 1 else 0)
    /\ sum row == 1
    /\ ((i < 0)%Z ->
        ReplayBuffer.eye_row dim (i + Z.of_nat dim) = Ok row).
Proof.
  intros Hv. rewrite (eye_row_valid Hv). eexists. split; [reflexivity |].
  assert (Hk : (ReplayBuffer.row_index dim i < dim)%nat).
  { unfold ReplayBuffer.valid_index, ReplayBuffer.row_index in *.
    destruct (Z.ltb_spec i 0); lia. }
  unfold ReplayBuffer.one_hot.
  split; [now rewrite length_map, length_seq |].
  split; [exact Hk |]. split; [| split].
  - intros j Hj.
    apply nth_error_nth.
    rewrite nth_error_map, nth_error_seq.
    destruct (Nat.ltb_spec j dim); [reflexivity | lia].
  - rewrite sum_indicator.
    destruct (Nat.leb_spec 0 (ReplayBuffer.row_index dim i)),
             (Nat.ltb_spec (ReplayBuffer.row_index dim i) (0 + dim));
      cbn; try reflexivity; lia.
  - intros Hneg.
    assert (Hv' : ReplayBuffer.valid_index dim (i + Z.of_nat dim)).
    { unfold ReplayBuffer.valid_index in *. lia. }
    rewrite (eye_row_valid Hv').
    assert (Hrow : ReplayBuffer.row_index dim (i + Z.of_nat dim)
                   = ReplayBuffer.row_index dim i).
    { unfold ReplayBuffer.valid_index, ReplayBuffer.row_index in *.
      destruct (Z.ltb_spec (i + Z.of_nat dim) 0), (Z.ltb_spec i 0);
        try reflexivity; lia. }
    now rewrite Hrow.
Qed.

Lemma eye_row_one_hot_witness :
  exists row,
    ReplayBuffer.eye_row 4 (-1) = Ok row
    /\ length row = 4%nat
    /\ (ReplayBuffer.row_index 4 (-1) < 4)%nat
    /\ (forall j, (j < 4)%nat ->
          nth j row 0
          = if (j =? ReplayBuffer.row_index 4 (-1))%nat then 1 else 0)
    /\ sum row == 1
    /\ ((-1 < 0)%Z ->
        ReplayBuffer.eye_row 4 (-1 + Z.of_nat 4) = Ok row).
Proof.
  apply (@eye_row_one_hot 4 (-1)). unfold ReplayBuffer.valid_index. cbn. lia.
Defined.

Lemma sample_loop_all {A} (pool : list A) (g : RandomState) :
  Permutation pool (fst (sample_loop pool (length pool) (length pool) g)).
Proof.
  destruct (@sample_loop_picks A (length pool) pool (length pool) g)
    as [Hl [rest Hp]]; [lia |].
  rewrite firstn_all in Hp.
  assert (Hrest : rest = []).
  { apply Permutation_length in Hp. rewrite length_app, Hl in Hp.
    destruct rest; [reflexivity | cbn in Hp; lia]. }
  subst rest. now rewrite app_nil_r in Hp.
Qed.

(** X4.  [sample(len(buffer))] on a non-empty memory returns every stored
    transition exactly once: the batch is a reordering of the whole
    memory. *)
Theorem sample_all_is_permutation (b : ReplayBuffer.t) (g : RandomState) :
  (1 <= ReplayBuffer.len b)%nat ->
  exists es,
    fst (fst (ReplayBuffer.sample b (ReplayBuffer.len b) g))
    = Ok (ReplayBuffer.batch_of es)
    /\ Permutation (items (ReplayBuffer.memory b)) es.
Proof.
  intros Hpos. unfold ReplayBuffer.len in *. unfold ReplayBuffer.sample.
  unfold random_sample. rewrite Nat.leb_refl.
  pose proof (sample_loop_all (items (ReplayBuffer.memory b)) g) as Hp.
  destruct (sample_loop _ _ _ g) as [es g']. cbn [fst] in *.
  exists es. split; [| exact Hp]. cbn [bind].
  destruct es as [| e es]; [| reflexivity].
  apply Permutation_length in Hp. cbn in Hp. lia.
Qed.

Lemma sample_all_is_permutation_witness :
  exists es,
    fst (fst (ReplayBuffer.sample buffer2 (ReplayBuffer.len buffer2) g0))
    = Ok (ReplayBuffer.batch_of es)
    /\ Permutation (items (ReplayBuffer.memory buffer2)) es.
Proof. apply sample_all_is_permutation. cbn. lia. Defined.

(** X5.  [train] on a memory holding fewer than [batch_size] transitions
    raises the [ValueError] of [random.sample] before any forward pass; the
    memory and the random generator are as before the call. *)
Theorem train_needs_a_full_batch (eval_model target_model : QR_DQN.t)
    (buffer : ReplayBuffer.t) (gamma : Q)
    (action_dim quant_num batch_size : nat) (k : Q) (g : RandomState) :
  (ReplayBuffer.len buffer < batch_size)%nat ->
  train eval_model target_model buffer gamma action_dim quant_num
        batch_size k g
  = (Raise ValueError, buffer, g).
Proof.
  intros Hlt. unfold train, ReplayBuffer.sample, random_sample.
  unfold ReplayBuffer.len in Hlt.
  destruct (Nat.leb_spec batch_size (length (items (ReplayBuffer.memory buffer))));
    [lia | reflexivity].
Qed.

Lemma train_needs_a_full_batch_witness :
  train net_one net_one buffer1 0.99 1 1 2 1 g0 = (Raise ValueError, buffer1, g0).
Proof. apply train_needs_a_full_batch. cbn. lia. Defined.

(** X6.  The guard of the episode loop, [len(buffer) > exploration] with
    [exploration = 200], is enough for the sampling of [train] with
    [batch_size = 64]: [sample] returns 64 entries taken from pairwise
    different positions of the memory and does not raise. *)
Theorem exploration_guard_admits_sampling (buffer : ReplayBuffer.t)
    (g : RandomState) :
  (Main.exploration < ReplayBuffer.len buffer)%nat ->
  exists idx es,
    fst (fst (ReplayBuffer.sample buffer Main.batch_size g))
    = Ok (ReplayBuffer.batch_of es)
    /\ length es = Main.batch_size /\ NoDup idx
    /\ Forall2 (fun i e =>
                  nth_error (items (ReplayBuffer.memory buffer)) i = Some e)
               idx es.
Proof.
  unfold ReplayBuffer.len, ReplayBuffer.sample, Main.exploration. intros Hlen.
  assert (Hle : (Main.batch_size
                 <= length (items (ReplayBuffer.memory buffer)))%nat)
    by (unfold Main.batch_size; lia).
  destruct (random_sample_positions (items (ReplayBuffer.memory buffer)) g Hle)
    as (idx & es & Hs & Hi & He & Hnd & Hf).
  exists idx, es.
  destruct (random_sample _ Main.batch_size g) as [r g'].
  cbn [fst] in *. subst r. cbn [bind].
  repeat split; auto.
  destruct es as [| e es']; [cbn in He; discriminate | reflexivity].
Qed.

(** ** The quantile value network *)

Lemma linear_length (fc : QR_DQN.Linear) (x : list Q) :
  length (QR_DQN.linear fc x)
  = Nat.min (length (QR_DQN.weight fc)) (length (QR_DQN.bias fc)).
Proof. unfold QR_DQN.linear. apply map2_length. Qed.

Lemma view_shape (action_dim quant_num : nat) (x : list Q) :
  length x = (action_dim * quant_num)%nat ->
  length (QR_DQN.view action_dim quant_num x) = action_dim
  /\ Forall (fun row => length row = quant_num)
            (QR_DQN.view action_dim quant_num x).
Proof.
  intros Hx. unfold QR_DQN.view. split.
  - now rewrite length_map, length_seq.
  - apply Forall_map, Forall_forall. intros a Ha. apply in_seq in Ha.
    rewrite length_firstn, length_skipn, Hx. nia.
Qed.

(** X7.  When the last layer has [action_dim * quant_num] outputs, as
    [__init__] builds it, [forward] maps a batch of [n] observations to a
    tensor of shape [n, action_dim, quant_num]. *)
Theorem forward_shape (self : QR_DQN.t) (observation : list (list Q)) :
  length (QR_DQN.weight (QR_DQN.fc4 self))
  = (QR_DQN.action_dim self * QR_DQN.quant_num self)%nat ->
  length (QR_DQN.bias (QR_DQN.fc4 self))
  = (QR_DQN.action_dim self * QR_DQN.quant_num self)%nat ->
  length (QR_DQN.forward self observation) = length observation
  /\ Forall (fun d =>
               length d = QR_DQN.action_dim self
               /\ Forall (fun row => length row = QR_DQN.quant_num self) d)
            (QR_DQN.forward self observation).
Proof.
  intros Hw Hb. unfold QR_DQN.forward. split; [apply length_map |].
  apply Forall_map, Forall_forall. intros o _.
  apply view_shape. rewrite linear_length, Hw, Hb. apply Nat.min_id.
Qed.

Lemma forward_shape_witness :
  length (QR_DQN.forward net3 [[1; 0]; [0; 1]]) = 2%nat
  /\ Forall (fun d =>
               length d = QR_DQN.action_dim net3
               /\ Forall (fun row => length row = QR_DQN.quant_num net3) d)
            (QR_DQN.forward net3 [[1; 0]; [0; 1]]).
Proof. apply (@forward_shape net3 [[1; 0]; [0; 1]]); reflexivity. Defined.

(** The mode flags play no part in [forward]. *)
Lemma forward_train (self : QR_DQN.t) (mode : bool)
    (observation : list (list Q)) :
  QR_DQN.forward (QR_DQN.train self mode) observation
  = QR_DQN.forward self observation.
Proof. reflexivity. Qed.

(** The scan of [argmax] ends on the first position of the largest entry. *)
Lemma argmax_from_first (l : list Q) : forall pre best besti,
  (besti < length pre)%nat ->
  nth besti pre 0 = best ->
  (forall i, (i < besti)%nat -> nth i pre 0 < best) ->
  (forall i, (i < length pre)%nat -> nth i pre 0 <= best) ->
  let a := argmax_from l (length pre) best besti in
  (forall i, (i < length (pre ++ l))%nat ->
     nth i (pre ++ l) 0 <= nth a (pre ++ l) 0)
  /\ (forall i, (i < a)%nat -> nth i (pre ++ l) 0 < nth a (pre ++ l) 0).
Proof.
  induction l as [| x l IH]; intros pre best besti Hlt Hnth Hbefore Hall;
    cbn zeta.
  - cbn [argmax_from]. rewrite app_nil_r, Hnth. auto.
  - cbn [argmax_from].
    replace (pre ++ x :: l) with ((pre ++ [x]) ++ l)
      by (now rewrite <- app_assoc).
    replace (S (length pre)) with (length (pre ++ [x]))
      by (rewrite length_app; cbn; lia).
    destruct (Qltb best x) eqn:E.
    + apply Qltb_true in E. apply IH.
      * rewrite length_app; cbn; lia.
      * rewrite app_nth2, Nat.sub_diag by lia. reflexivity.
      * intros i Hi. rewrite app_nth1 by lia.
        eapply Qle_lt_trans; [apply Hall, Hi | exact E].
      * intros i Hi. rewrite length_app in Hi; cbn in Hi.
        destruct (Nat.eq_dec i (length pre)) as [-> | Hne].
        -- rewrite app_nth2, Nat.sub_diag by lia. apply Qle_refl.
        -- rewrite app_nth1 by lia. apply Qlt_le_weak.
           eapply Qle_lt_trans; [apply Hall; lia | exact E].
    + apply Qltb_false in E. apply IH.
      * rewrite length_app; cbn; lia.
      * now rewrite app_nth1.
      * intros i Hi. rewrite app_nth1 by lia. now apply Hbefore.
      * intros i Hi. rewrite length_app in Hi; cbn in Hi.
        destruct (Nat.eq_dec i (length pre)) as [-> | Hne].
        -- rewrite app_nth2, Nat.sub_diag by lia. exact E.
        -- rewrite app_nth1 by lia. apply Hall. lia.
Qed.

Lemma argmax_first (l : list Q) (a : nat) :
  argmax l = Ok a ->
  (a < length l)%nat
  /\ (forall i, (i < length l)%nat -> nth i l 0 <= nth a l 0)
  /\ (forall i, (i < a)%nat -> nth i l 0 < nth a l 0).
Proof.
  intros Ha. split; [apply (argmax_maximum _ Ha) |].
  destruct l as [| x l]; cbn [argmax] in Ha; [discriminate |].
  injection Ha as <-.
  apply (@argmax_from_first l [x] x 0%nat).
  - cbn; lia.
  - reflexivity.
  - intros i Hi; lia.
  - intros i Hi. cbn in Hi. replace i with 0%nat by lia. apply Qle_refl.
Qed.

Lemma random_below_one (g : RandomState) :
  0 <= fst (QR_DQN.random g) /\ fst (QR_DQN.random g) < 1.
Proof.
  unfold QR_DQN.random. cbn [fst].
  set (d := (draws g (cursor g) mod 2 ^ 53)%N).
  assert (Hd : (d < 2 ^ 53)%N) by (apply N.mod_upper_bound; discriminate).
  assert (Hpos : 0 < inject_Z (2 ^ 53)) by reflexivity.
  split.
  - apply Qle_shift_div_l; [exact Hpos |]. rewrite Qmult_0_l.
    change 0 with (inject_Z 0). rewrite <- Zle_Qle. lia.
  - apply Qlt_shift_div_r; [exact Hpos |]. rewrite Qmult_1_l.
    rewrite <- Zlt_Qlt. change (2 ^ 53)%Z with (Z.of_N (2 ^ 53)). lia.
Qed.

Lemma mapM_length {A B} (f : A -> Result B) (l : list A) (bs : list B) :
  mapM f l = Ok bs -> length bs = length l.
Proof.
  intros H. apply mapM_Forall2 in H.
  induction H; cbn; congruence.
Qed.

Lemma mapM_argmax_ok (qs : list (list Q)) :
  Forall (fun q => q <> []) qs ->
  exists acts, mapM argmax qs = Ok acts.
Proof.
  induction 1 as [| q qs Hq _ [acts IH]]; cbn [mapM].
  - eauto.
  - destruct q as [| x q]; [congruence |]. cbn [argmax bind].
    rewrite IH. cbn [bind]. eauto.
Qed.

(** X8.  Whenever [act] returns an action it is a valid one:
    [0 <= action < action_dim], on the greedy and on the random branch. *)
Theorem act_in_range (self self' : QR_DQN.t) (observation : list (list Q))
    (epsilon : Q) (g g' : RandomState) (a : nat) :
  QR_DQN.act self observation epsilon g = (Ok a, self', g') ->
  (a < QR_DQN.action_dim self)%nat.
Proof.
  unfold QR_DQN.act. destruct (QR_DQN.random g) as [r g1].
  destruct (Qltb epsilon r).
  - destruct (mapM argmax _) as [[| a0 [| a1 l]] | e] eqn:EM; intros H;
      inversion H; subst.
    apply mapM_Forall2 in EM.
    unfold QR_DQN.forward in EM. rewrite map_map in EM.
    destruct observation as [| o obs]; cbn [map] in EM; inversion EM; subst.
    match goal with Hmax : argmax _ = Ok a |- _ =>
      pose proof (proj1 (argmax_maximum _ Hmax)) as Ha end.
    unfold QR_DQN.view in Ha.
    rewrite !length_map, length_seq in Ha. exact Ha.
  - change (QR_DQN.action_dim (QR_DQN.eval self))
      with (QR_DQN.action_dim self).
    destruct (QR_DQN.action_dim self) as [| n] eqn:E.
    + intros H; inversion H.
    + unfold randbelow. intros H; inversion H; subst.
      pose proof (N.mod_upper_bound (draws g1 (cursor g1)) (N.of_nat (S n))).
      lia.
Qed.

Lemma act_in_range_witness : (0 < QR_DQN.action_dim net3)%nat.
Proof.
  apply (@act_in_range net3 (QR_DQN.train net3 true) [[1; 0]] 0.01 g_half
           (mkRandom (fun _ => (2 ^ 52)%N) 1) 0).
  vm_compute. reflexivity.
Defined.

(** X9.  With [epsilon >= 1] the network is never consulted: [act] returns
    the next draw reduced below [action_dim], whatever the observation and
    the weights, and leaves the module in training mode. *)
Theorem act_explores_when_epsilon_is_one (self : QR_DQN.t)
    (observation : list (list Q)) (epsilon : Q) (g : RandomState) :
  1 <= epsilon ->
  QR_DQN.action_dim self <> 0%nat ->
  QR_DQN.act self observation epsilon g
  = (Ok (N.to_nat (draws g (S (cursor g))
                   mod N.of_nat (QR_DQN.action_dim self))),
     QR_DQN.train self true,
     mkRandom (draws g) (S (S (cursor g)))).
Proof.
  intros Heps HA. unfold QR_DQN.act.
  pose proof (random_below_one g) as [_ Hr].
  destruct (QR_DQN.random g) as [r g1] eqn:Er. cbn [fst] in Hr.
  assert (Hg1 : g1 = mkRandom (draws g) (S (cursor g))).
  { unfold QR_DQN.random in Er. now inversion Er. }
  destruct (Qltb epsilon r) eqn:E.
  - apply Qltb_true in E. exfalso.
    apply (Qlt_irrefl 1). eapply Qle_lt_trans; [exact Heps |].
    eapply Qlt_trans; eauto.
  - change (QR_DQN.action_dim (QR_DQN.eval self))
      with (QR_DQN.action_dim self).
    destruct (QR_DQN.action_dim self) as [| n]; [congruence |].
    subst g1. reflexivity.
Qed.

Lemma act_explores_when_epsilon_is_one_witness :
  QR_DQN.act net3 [[1; 0]] 1 g0
  = (Ok (N.to_nat (draws g0 (S (cursor g0))
                   mod N.of_nat (QR_DQN.action_dim net3))),
     QR_DQN.train net3 true,
     mkRandom (draws g0) (S (S (cursor g0)))).
Proof.
  apply act_explores_when_epsilon_is_one.
  - vm_compute. discriminate.
  - vm_compute. discriminate.
Defined.

(** X10.  When the draw of [random.random()] exceeds [epsilon], [act] on a
    single observation returns the action with the largest mean quantile
    value, the lowest such index among equal means. *)
Theorem act_greedy_is_first_maximum (self : QR_DQN.t) (o : list Q)
    (epsilon : Q) (g : RandomState) :
  Qltb epsilon (fst (QR_DQN.random g)) = true ->
  QR_DQN.action_dim self <> 0%nat ->
  let q := map mean (hd [] (QR_DQN.forward self [o])) in
  exists a,
    QR_DQN.act self [o] epsilon g
    = (Ok a, QR_DQN.train self true, snd (QR_DQN.random g))
    /\ (a < QR_DQN.action_dim self)%nat
    /\ (forall i, (i < QR_DQN.action_dim self)%nat -> nth i q 0 <= nth a q 0)
    /\ (forall i, (i < a)%nat -> nth i q 0 < nth a q 0).
Proof.
  intros Hr HA q. unfold QR_DQN.act.
  destruct (QR_DQN.random g) as [r g1]. cbn [fst snd] in *. rewrite Hr.
  change (QR_DQN.forward (QR_DQN.eval self) [o])
    with (QR_DQN.forward self [o]).
  unfold q. cbn [QR_DQN.forward map hd mapM].
  set (row := map mean _).
  assert (Hlen : length row = QR_DQN.action_dim self).
  { unfold row, QR_DQN.view. now rewrite !length_map, length_seq. }
  destruct (argmax row) as [a | e] eqn:Ea.
  - cbn [bind]. exists a. split; [reflexivity |].
    apply argmax_first in Ea. rewrite Hlen in Ea. exact Ea.
  - destruct row; [cbn in Hlen; congruence | discriminate].
Qed.

Lemma act_greedy_is_first_maximum_witness :
  exists a,
    QR_DQN.act net3 [[1; 0]] 0.01 g_half
    = (Ok a, QR_DQN.train net3 true, snd (QR_DQN.random g_half))
    /\ (a < QR_DQN.action_dim net3)%nat
    /\ (forall i, (i < QR_DQN.action_dim net3)%nat ->
          nth i (map mean (hd [] (QR_DQN.forward net3 [[1; 0]]))) 0
          <= nth a (map mean (hd [] (QR_DQN.forward net3 [[1; 0]]))) 0)
    /\ (forall i, (i < a)%nat ->
          nth i (map mean (hd [] (QR_DQN.forward net3 [[1; 0]]))) 0
          < nth a (map mean (hd [] (QR_DQN.forward net3 [[1; 0]]))) 0).
Proof.
  apply (@act_greedy_is_first_maximum net3 [1; 0] 0.01 g_half).
  - vm_compute. reflexivity.
  - vm_compute. discriminate.
Defined.

(** X11.  On the greedy branch a batch that is not exactly one observation
    makes [.item()] raise [RuntimeError]; [self.train()] is not reached and
    the module is left in evaluation mode. *)
Theorem act_raises_on_batches (self : QR_DQN.t) (observation : list (list Q))
    (epsilon : Q) (g : RandomState) :
  Qltb epsilon (fst (QR_DQN.random g)) = true ->
  QR_DQN.action_dim self <> 0%nat ->
  length observation <> 1%nat ->
  QR_DQN.act self observation epsilon g
  = (Raise RuntimeError, QR_DQN.eval self, snd (QR_DQN.random g)).
Proof.
  intros Hr HA Hlen. unfold QR_DQN.act.
  destruct (QR_DQN.random g) as [r g1]. cbn [fst snd] in *. rewrite Hr.
  destruct (@mapM_argmax_ok
              (map (map mean) (QR_DQN.forward (QR_DQN.eval self) observation)))
    as [acts Hacts].
  { apply Forall_map. unfold QR_DQN.forward. apply Forall_map, Forall_forall.
    intros o _ Hnil. apply (f_equal (@length Q)) in Hnil.
    unfold QR_DQN.view in Hnil. rewrite !length_map, length_seq in Hnil.
    cbn in Hnil. congruence. }
  rewrite Hacts. pose proof (mapM_length _ _ Hacts) as Hl.
  unfold QR_DQN.forward in Hl. rewrite !length_map in Hl.
  destruct acts as [| a0 [| a1 acts]]; try reflexivity.
  cbn in Hl. congruence.
Qed.

Lemma act_raises_on_batches_witness :
  QR_DQN.act net3 [[1; 0]; [0; 1]] 0.01 g_half
  = (Raise RuntimeError, QR_DQN.eval net3, snd (QR_DQN.random g_half)).
Proof.
  apply act_raises_on_batches.
  - vm_compute. reflexivity.
  - vm_compute. discriminate.
  - cbn. discriminate.
Defined.

(** X12.  When [count] is a multiple of [update_freq], the sync at the end
    of [train] leaves a target model that computes the same [forward] as
    the online model on every batch and holds the online parameters; the
    target's mode flag is not touched.  (The two models have the same
    [action_dim] and [quant_num], as both are built by the same
    [__init__] call.) *)
Theorem target_sync_copies (eval_model target_model target' : QR_DQN.t)
    (count update_freq : Z) :
  QR_DQN.action_dim eval_model = QR_DQN.action_dim target_model ->
  QR_DQN.quant_num eval_model = QR_DQN.quant_num target_model ->
  update_freq <> 0%Z ->
  (count mod update_freq = 0)%Z ->
  target_sync eval_model target_model count update_freq = Ok target' ->
  (forall observation,
     QR_DQN.forward target' observation
     = QR_DQN.forward eval_model observation)
  /\ QR_DQN.parameters target' = QR_DQN.parameters eval_model
  /\ QR_DQN.training target' = QR_DQN.training target_model.
Proof.
  intros HA HQ Hf Hc. unfold target_sync.
  destruct (Z.eqb_spec update_freq 0) as [| _]; [contradiction |].
  rewrite Hc. cbn [Z.eqb].
  unfold QR_DQN.load_state_dict, QR_DQN.state_dict, QR_DQN.parameters.
  cbn [map].
  destruct (_ && _); [| discriminate].
  intros H. injection H as <-. split; [| split; reflexivity].
  intros observation. unfold QR_DQN.forward.
  cbn [QR_DQN.action_dim QR_DQN.quant_num QR_DQN.fc1 QR_DQN.fc2
       QR_DQN.fc3 QR_DQN.fc4].
  rewrite <- HA, <- HQ. reflexivity.
Qed.

Lemma target_sync_copies_witness :
  (forall observation,
     QR_DQN.forward (QR_DQN.train net_minus_one true) observation
     = QR_DQN.forward net_minus_one observation)
  /\ QR_DQN.parameters (QR_DQN.train net_minus_one true)
     = QR_DQN.parameters net_minus_one
  /\ QR_DQN.training (QR_DQN.train net_minus_one true)
     = QR_DQN.training net_one.
Proof.
  apply (@target_sync_copies net_minus_one net_one
           (QR_DQN.train net_minus_one true) 400 200).
  - reflexivity.
  - reflexivity.
  - discriminate.
  - reflexivity.
  - vm_compute. reflexivity.
Defined.

(** ** Sorting and the quantile midpoints *)

Lemma insert_idx_perm (v : list Q) (i : nat) (s : list nat) :
  Permutation (insert_idx v i s) (i :: s).
Proof.
  induction s as [| j s IH]; cbn [insert_idx].
  - reflexivity.
  - destruct (Qltb _ _); [reflexivity |].
    rewrite IH. apply perm_swap.
Qed.

Lemma insert_idx_hd (v : list Q) (i j : nat) (s : list nat) :
  HdRel (fun a b => nth a v 0 <= nth b v 0) j s ->
  nth j v 0 <= nth i v 0 ->
  HdRel (fun a b => nth a v 0 <= nth b v 0) j (insert_idx v i s).
Proof.
  intros Hhd Hji. destruct s as [| h s]; cbn [insert_idx].
  - now constructor.
  - destruct (Qltb _ _); constructor; [exact Hji |].
    now inversion Hhd.
Qed.

Lemma insert_idx_sorted (v : list Q) (i : nat) (s : list nat) :
  Sorted (fun a b => nth a v 0 <= nth b v 0) s ->
  Sorted (fun a b => nth a v 0 <= nth b v 0) (insert_idx v i s).
Proof.
  induction 1 as [| j s Hs IH Hhd]; cbn [insert_idx].
  - repeat constructor.
  - destruct (Qltb (nth i v 0) (nth j v 0)) eqn:E.
    + apply Qltb_true in E. constructor; [now constructor |].
      constructor. now apply Qlt_le_weak.
    + apply Qltb_false in E. constructor; [exact IH |].
      now apply insert_idx_hd.
Qed.

Lemma argsort_fold (v : list Q) (l : list nat) : forall acc : list nat,
  Sorted (fun a b => nth a v 0 <= nth b v 0) acc ->
  Permutation (fold_left (fun acc i => insert_idx v i acc) l acc) (l ++ acc)
  /\ Sorted (fun a b => nth a v 0 <= nth b v 0)
            (fold_left (fun acc i => insert_idx v i acc) l acc).
Proof.
  induction l as [| i l IH]; intros acc Hacc; cbn [fold_left].
  - split; [reflexivity | exact Hacc].
  - destruct (IH (insert_idx v i acc) (insert_idx_sorted v i Hacc))
      as [Hp Hs].
    split; [| exact Hs].
    rewrite Hp, insert_idx_perm. cbn [app]. symmetry.
    apply Permutation_middle.
Qed.

Lemma argsort_perm (v : list Q) :
  Permutation (argsort v) (seq 0 (length v)).
Proof.
  unfold argsort.
  destruct (@argsort_fold v (seq 0 (length v)) []) as [Hp _];
    [constructor |].
  now rewrite app_nil_r in Hp.
Qed.

(** [argsort] returns every position of the row exactly once, in an order
    in which the values read through it are ascending. *)
Lemma argsort_sorts (v : list Q) :
  Permutation (argsort v) (seq 0 (length v))
  /\ Sorted Qle (map (fun i => nth i v 0) (argsort v)).
Proof.
  split; [apply argsort_perm |]. unfold argsort.
  destruct (@argsort_fold v (seq 0 (length v)) []) as [_ Hs];
    [constructor |].
  induction Hs as [| i s _ IH Hhd]; cbn [map]; constructor.
  - exact IH.
  - destruct Hhd; cbn [map]; constructor. assumption.
Qed.

Lemma map_nth_seq {A} (l : list A) (d : A) :
  map (fun i => nth i l d) (seq 0 (length l)) = l.
Proof.
  induction l as [| x l IH]; [reflexivity |].
  cbn [length seq map nth]. f_equal.
  rewrite <- seq_shift, map_map. exact IH.
Qed.

Lemma linspace_length (start stop : Q) (steps : nat) :
  length (linspace start stop steps) = steps.
Proof.
  unfold linspace. destruct steps as [| [| n]]; try reflexivity.
  now rewrite length_map, length_seq.
Qed.

Lemma tau_hat_length (quant_num : nat) :
  length (tau_hat quant_num) = quant_num.
Proof. unfold tau_hat. now rewrite length_map, linspace_length. Qed.

Lemma gather_action_rows (dist : list (list (list Q))) : forall a quant_num,
  Forall (fun row => length row = quant_num)
         (gather_action dist a quant_num).
Proof.
  unfold gather_action.
  induction dist as [| d dist IH]; intros [| ai a] quant_num; cbn [map2];
    constructor; auto.
  now rewrite length_map, length_seq.
Qed.

(** X13.  Every row of the [tau] that [get_target_distribution] returns is
    a reordering of the nominal midpoints [tau_hat]: each midpoint is given
    to exactly one slot of each sample. *)
Theorem tau_rows_permute_tau_hat (target_model : QR_DQN.t)
    (next_observation : list (list Q)) (reward done : list Q) (gamma : Q)
    (action_dim quant_num : nat) (target_dist tau : list (list Q)) :
  get_target_distribution target_model next_observation reward done gamma
                          action_dim quant_num = Ok (target_dist, tau) ->
  Forall (fun row => Permutation row (tau_hat quant_num)) tau.
Proof.
  unfold get_target_distribution.
  destruct (mapM argmax _) as [next_action | e]; cbn [bind]; [| discriminate].
  destruct quant_num as [| q]; [discriminate |].
  intros H. injection H as _ Htau. subst tau.
  unfold gather_tau. apply Forall_map, Forall_map.
  pose proof (gather_action_rows
                (QR_DQN.forward target_model next_observation)
                next_action (S q)) as Hrows.
  rewrite Forall_forall in *. intros row Hin.
  specialize (Hrows row Hin).
  rewrite (Permutation_map _ (argsort_perm row)), Hrows.
  rewrite <- (tau_hat_length (S q)) at 1.
  now rewrite map_nth_seq.
Qed.

Lemma tau_rows_permute_tau_hat_witness :
  Forall (fun row => Permutation row (tau_hat 3))
         [[90 # 180; 150 # 180; 30 # 180]].
Proof.
  apply (@tau_rows_permute_tau_hat net3 [[1; 0]] [0] [0] 0.99 1 3
           [[0.297; 0.099; 0.198]] [[90 # 180; 150 # 180; 30 # 180]]).
  vm_compute. reflexivity.
Defined.

Lemma inject_nat_succ (n : nat) :
  inject_Z (Z.of_nat (S n)) == inject_Z (Z.of_nat n) + 1.
Proof.
  rewrite Nat2Z.inj_succ. unfold Z.succ. rewrite inject_Z_plus. reflexivity.
Qed.

Lemma inject_nat_nonneg (n : nat) : 0 <= inject_Z (Z.of_nat n).
Proof. change 0 with (inject_Z 0). rewrite <- Zle_Qle. lia. Qed.

(** X14.  The nominal midpoints are [tau_hat[i] = (i + 0.5) / quant_num]
    for [0 <= i < quant_num], each strictly between 0 and 1. *)
Theorem tau_hat_midpoints (quant_num i : nat) :
  (i < quant_num)%nat ->
  nth i (tau_hat quant_num) 0
  == (inject_Z (Z.of_nat i) + 0.5) / inject_Z (Z.of_nat quant_num)
  /\ 0 < nth i (tau_hat quant_num) 0 < 1.
Proof.
  intros Hi.
  assert (Hval : nth i (tau_hat quant_num) 0
                 == (inject_Z (Z.of_nat i) + 0.5)
                    / inject_Z (Z.of_nat quant_num)).
  { unfold tau_hat, linspace.
    destruct quant_num as [| [| n]]; [lia | |].
    - replace i with 0%nat by lia. vm_compute. reflexivity.
    - rewrite map_map.
      erewrite nth_error_nth;
        [| rewrite nth_error_map, nth_error_seq;
           destruct (Nat.ltb_spec i (S (S n))); [reflexivity | lia]].
      cbn [option_map Nat.add].
      replace (S (S n) - 1)%nat with (S n) by lia.
      rewrite (inject_nat_succ (S n)).
      pose proof (inject_nat_nonneg n) as Hn.
      rewrite (inject_nat_succ n) in *.
      set (x := inject_Z (Z.of_nat n)) in *.
      field. split; lra. }
  split; [exact Hval |]. rewrite Hval.
  assert (Hq : 0 < inject_Z (Z.of_nat quant_num)).
  { change 0 with (inject_Z 0). rewrite <- Zlt_Qlt. lia. }
  pose proof (inject_nat_nonneg i) as Hi0.
  assert (Hiq : inject_Z (Z.of_nat i) + 1 <= inject_Z (Z.of_nat quant_num)).
  { rewrite <- inject_nat_succ, <- Zle_Qle. lia. }
  split.
  - apply Qlt_shift_div_l; [exact Hq | lra].
  - apply Qlt_shift_div_r; [exact Hq | lra].
Qed.

Lemma tau_hat_midpoints_witness :
  nth 2 (tau_hat 10) 0
  == (inject_Z (Z.of_nat 2) + 0.5) / inject_Z (Z.of_nat 10)
  /\ 0 < nth 2 (tau_hat 10) 0 < 1.
Proof. apply tau_hat_midpoints. lia. Defined.

(** ** Target distribution builder: shapes and terminal transitions *)

Lemma map2_rows_length {A B C} (f : A -> B -> C) (q : nat)
    (l1 : list (list A)) : forall l2 : list (list B),
  Forall (fun r => length r = q) l1 ->
  Forall (fun r => length r = q) l2 ->
  Forall (fun r => length r = q) (map2 (map2 f) l1 l2).
Proof.
  induction l1 as [| r1 l1 IH]; intros [| r2 l2] H1 H2; cbn [map2];
    try constructor.
  - inversion H1; inversion H2; subst. rewrite map2_length. lia.
  - inversion H1; inversion H2; subst. now apply IH.
Qed.

Lemma expand_rows (v : list Q) (quant_num : nat) :
  Forall (fun r => length r = quant_num) (expand v quant_num).
Proof.
  unfold expand. apply Forall_map, Forall_forall. intros x _.
  apply repeat_length.
Qed.

Lemma Forall_map_rows {A B} (f : A -> B) (q : nat) (l : list (list A)) :
  Forall (fun r => length r = q) l ->
  Forall (fun r => length r = q) (map (map f) l).
Proof.
  intros H. apply Forall_map. rewrite Forall_forall in *. intros r Hr.
  rewrite length_map. now apply H.
Qed.

(** X15.  For a batch of [n] next observations with [n] rewards and [n]
    done flags, the [target_dist] and the [tau] that
    [get_target_distribution] returns both have shape [n, quant_num]. *)
Theorem target_shapes (target_model : QR_DQN.t)
    (next_observation : list (list Q)) (reward done : list Q) (gamma : Q)
    (action_dim quant_num : nat) (target_dist tau : list (list Q)) :
  get_target_distribution target_model next_observation reward done gamma
                          action_dim quant_num = Ok (target_dist, tau) ->
  length reward = length next_observation ->
  length done = length next_observation ->
  length target_dist = length next_observation
  /\ length tau = length next_observation
  /\ Forall (fun row => length row = quant_num) target_dist
  /\ Forall (fun row => length row = quant_num) tau.
Proof.
  unfold get_target_distribution.
  destruct (mapM argmax _) as [next_action | e] eqn:EM; cbn [bind];
    [| discriminate].
  destruct quant_num as [| q]; [discriminate |].
  intros H Hr Hd. injection H as Htd Htau. subst target_dist tau.
  apply mapM_length in EM.
  unfold QR_DQN.forward in *. rewrite !length_map in EM.
  set (N3 := map _ next_observation) in *.
  assert (HN : length N3 = length next_observation)
    by (unfold N3; apply length_map).
  assert (HG : length (gather_action N3 next_action (S q))
               = length next_observation).
  { unfold gather_action. rewrite map2_length. lia. }
  pose proof (gather_action_rows N3 next_action (S q)) as Hrows.
  split; [| split; [| split]].
  - rewrite length_map, !map2_length, length_map. unfold expand.
    rewrite !length_map. lia.
  - unfold gather_tau. now rewrite !length_map.
  - apply Forall_map_rows, map2_rows_length; [apply expand_rows |].
    apply map2_rows_length; [| exact Hrows].
    apply Forall_map_rows, expand_rows.
  - unfold gather_tau. apply Forall_map, Forall_map.
    rewrite Forall_forall in *. intros row Hin.
    rewrite length_map, (Permutation_length (argsort_perm row)), length_seq.
    now apply Hrows.
Qed.

Lemma target_shapes_witness :
  length [[0.297; 0.099; 0.198]] = length [[1; 0]]
  /\ length [[90 # 180; 150 # 180; 30 # 180]] = length [[1; 0]]
  /\ Forall (fun row => length row = 3%nat) [[0.297; 0.099; 0.198]]
  /\ Forall (fun row => length row = 3%nat)
            [[90 # 180; 150 # 180; 30 # 180]].
Proof.
  apply (@target_shapes net3 [[1; 0]] [0] [0] 0.99 1 3
           [[0.297; 0.099; 0.198]] [[90 # 180; 150 # 180; 30 # 180]]).
  - vm_compute. reflexivity.
  - reflexivity.
  - reflexivity.
Defined.

Lemma terminal_row (gamma r d : Q) : d == 1 -> forall q (row : list Q),
  Forall (fun x => x == clamp 0 1 r)
    (map (clamp 0 1)
       (map2 Qplus (repeat r q)
          (map2 Qmult (map (fun d => gamma * (1 - d)) (repeat d q)) row))).
Proof.
  intros Hd. induction q as [| q IH]; intros row; cbn [repeat map map2].
  - constructor.
  - destruct row as [| x row]; cbn [map2 map]; constructor.
    + apply clamp_compat; try reflexivity. rewrite Hd. ring.
    + apply IH.
Qed.

Lemma terminal_rows (gamma : Q) (q : nat) (reward : list Q) :
  forall (done : list Q) (G : list (list Q)),
  Forall (fun d => d == 1) done ->
  let td :=
    map (map (clamp 0 1))
      (map2 (map2 Qplus) (expand reward q)
         (map2 (map2 Qmult)
            (map (map (fun d => gamma * (1 - d))) (expand done q)) G)) in
  Forall2 (fun row r => Forall (fun x => x == clamp 0 1 r) row)
          td (firstn (length td) reward).
Proof.
  induction reward as [| r reward IH]; intros done G Hdone; cbn zeta.
  - constructor.
  - destruct done as [| d done]; [constructor |].
    destruct G as [| row G]; [constructor |].
    inversion Hdone as [| ? ? Hd Hdone']; subst.
    cbn [expand map map2 length firstn]. constructor.
    + now apply terminal_row.
    + apply (IH done G Hdone').
Qed.

(** X16.  In a batch of terminal transitions ([done = 1]) every slot of a
    sample's target is the reward clamped to [0, 1], whatever [gamma] and
    whatever the target model returns for the next observation. *)
Theorem terminal_target_is_clamped_reward (target_model : QR_DQN.t)
    (next_observation : list (list Q)) (reward done : list Q) (gamma : Q)
    (action_dim quant_num : nat) (target_dist tau : list (list Q)) :
  get_target_distribution target_model next_observation reward done gamma
                          action_dim quant_num = Ok (target_dist, tau) ->
  Forall (fun d => d == 1) done ->
  Forall2 (fun row r => Forall (fun x => x == clamp 0 1 r) row)
          target_dist (firstn (length target_dist) reward).
Proof.
  unfold get_target_distribution.
  destruct (mapM argmax _) as [next_action | e]; cbn [bind]; [| discriminate].
  destruct quant_num as [| q]; [discriminate |].
  intros H Hdone. injection H as Htd _. subst target_dist.
  now apply terminal_rows.
Qed.

Lemma terminal_target_is_clamped_reward_witness :
  Forall2 (fun row r => Forall (fun x => x == clamp 0 1 r) row)
          [[1.00]] (firstn (length [[1.00]]) [1]).
Proof.
  apply (@terminal_target_is_clamped_reward net_one [[0; 1]] [1] [1] 0.99
           1 1 [[1.00]] [[0.5]]).
  - vm_compute. reflexivity.
  - repeat constructor.
Defined.

(** ** Trainer: bounds on the loss entries *)

Lemma quantile_weight_range (tau u : Q) :
  0 <= tau <= 1 ->
  0 <= Qabs (tau - (if Qltb u 0 then 1 else 0)) <= 1.
Proof.
  intros [H0 H1]. split; [apply Qabs_nonneg |].
  destruct (Qltb u 0); apply Qabs_case; intros _; lra.
Qed.

(** X17.  For [k >= 0] and [tau] in [0, 1], an entry of [quantile_loss] is
    never below [-0.5 * k^2]; it is non-negative where [|u| >= k] and
    non-positive where [|u| <= k]. *)
Theorem quantile_loss_bounds (k tau u : Q) :
  0 <= k ->
  0 <= tau <= 1 ->
  - (0.5 * k * k) <= quantile_loss k tau u
  /\ (k <= Qabs u -> 0 <= quantile_loss k tau u)
  /\ (Qabs u <= k -> quantile_loss k tau u <= 0).
Proof.
  intros Hk Htau. unfold quantile_loss.
  pose proof (quantile_weight_range u Htau) as [Hw0 Hw1].
  set (w := Qabs (tau - (if Qltb u 0 then 1 else 0))) in *.
  pose proof (huber_loss_shift u Hk) as Hshift.
  pose proof (plain_huber_nonneg u Hk) as Hnn.
  pose proof (Qabs_sq u) as Hsq.
  pose proof (Qabs_nonneg u) as Habs.
  assert (Hcases : (k <= Qabs u -> 0 <= huber_loss k u)
                   /\ (Qabs u <= k -> huber_loss k u <= 0)).
  { rewrite Hshift. unfold plain_huber.
    destruct (Qle_bool (Qabs u) k) eqn:E.
    - apply Qle_bool_iff in E. split; intros H; nra.
    - assert (k < Qabs u).
      { apply Qnot_le_lt. intros H. apply Qle_bool_iff in H. congruence. }
      split; intros H'; nra. }
  destruct Hcases as [Hhi Hlo].
  rewrite Hshift in *.
  set (h := plain_huber k u) in *.
  split; [| split].
  - nra.
  - intros H. specialize (Hhi H). nra.
  - intros H. specialize (Hlo H). nra.
Qed.

Lemma quantile_loss_bounds_witness :
  - (0.5 * 1 * 1) <= quantile_loss 1 0.5 0
  /\ (1 <= Qabs 0 -> 0 <= quantile_loss 1 0.5 0)
  /\ (Qabs 0 <= 1 -> quantile_loss 1 0.5 0 <= 0).
Proof.
  apply quantile_loss_bounds.
  - vm_compute. discriminate.
  - split; vm_compute; discriminate.
Defined.

(** ** The episode loop: monitoring value and epsilon schedule *)

Lemma weight_rewards_within (lo hi : Q) (totals : list Q) :
  Forall (fun x => lo <= x <= hi) totals ->
  forall w0 : option Q,
  match w0 with Some w => lo <= w <= hi | None => True end ->
  Forall (fun x => lo <= x <= hi) (Main.weight_rewards w0 totals).
Proof.
  induction 1 as [| x totals Hx _ IH]; intros w0 Hw0;
    cbn [Main.weight_rewards]; constructor.
  - destruct w0 as [w |]; cbn [Main.weight_reward_update]; [lra | exact Hx].
  - apply IH. destruct w0 as [w |]; cbn [Main.weight_reward_update];
      [lra | exact Hx].
Qed.

(** X18.  [weight_reward] starts as the first episode's total and stays
    within the range of the episode totals seen: if every total lies in
    [lo, hi], so does every printed [weight_reward]. *)
Theorem weight_reward_bounded (lo hi : Q) (totals : list Q) :
  Forall (fun x => lo <= x <= hi) totals ->
  Forall (fun x => lo <= x <= hi) (Main.weight_rewards None totals)
  /\ hd_error (Main.weight_rewards None totals) = hd_error totals
  /\ length (Main.weight_rewards None totals) = length totals.
Proof.
  intros H. split; [now apply weight_rewards_within |]. split.
  - destruct totals; reflexivity.
  - clear H. generalize (@None Q).
    induction totals as [| x totals IH]; intros w0; cbn; auto.
Qed.

Lemma weight_reward_bounded_witness :
  Forall (fun x => 0 <= x <= 1) (Main.weight_rewards None [0; 1; 1])
  /\ hd_error (Main.weight_rewards None [0; 1; 1]) = hd_error [0; 1; 1]
  /\ length (Main.weight_rewards None [0; 1; 1]) = length [0; 1; 1].
Proof.
  apply weight_reward_bounded.
  repeat constructor; vm_compute; discriminate.
Defined.

Lemma decay_power_succ (n : nat) :
  Main.epsilon_decay ^ Z.of_nat (S n)
  == Main.epsilon_decay ^ Z.of_nat n * Main.epsilon_decay.
Proof.
  rewrite Nat2Z.inj_succ. unfold Z.succ.
  rewrite Qpower_plus by (intros H; vm_compute in H; discriminate).
  reflexivity.
Qed.

Lemma decay_power_range (n : nat) :
  0 < Main.epsilon_decay ^ Z.of_nat n <= 1.
Proof.
  induction n as [| n IH].
  - split; vm_compute; [reflexivity | discriminate].
  - rewrite decay_power_succ.
    assert (Hd : 0 < Main.epsilon_decay <= 1)
      by (split; vm_compute; [reflexivity | discriminate]).
    nra.
Qed.

(** [n] updates in a row, in closed form. *)
Lemma epsilon_after_closed_form (n : nat) : forall epsilon : Q,
  Main.epsilon_min <= epsilon ->
  Main.epsilon_after n epsilon
  == Qmax (epsilon * Main.epsilon_decay ^ Z.of_nat n) Main.epsilon_min.
Proof.
  assert (Hmin : 0 < Main.epsilon_min) by reflexivity.
  assert (Hd : 0 < Main.epsilon_decay <= 1)
    by (split; vm_compute; [reflexivity | discriminate]).
  induction n as [| n IH]; intros epsilon Heps.
  - cbn [Main.epsilon_after Z.of_nat]. change (Main.epsilon_decay ^ 0) with 1.
    rewrite Qmult_1_r. symmetry. now apply Q.max_l.
  - cbn [Main.epsilon_after].
    rewrite (IH _ (decay_ge_min Heps)), decay_power_succ.
    pose proof (decay_power_range n) as [Hp0 Hp1].
    set (p := Main.epsilon_decay ^ Z.of_nat n) in *.
    unfold Main.decay, Main.max.
    destruct (Qltb Main.epsilon_min epsilon) eqn:E1.
    + apply Qltb_true in E1.
      destruct (Qltb (epsilon * Main.epsilon_decay) Main.epsilon_min) eqn:E2.
      * apply Qltb_true in E2.
        transitivity Main.epsilon_min;
          [| symmetry]; apply Q.max_r; nra.
      * apply Q.max_compat; [ring | reflexivity].
    + apply Qltb_false in E1.
      assert (Hpd : 0 < p * Main.epsilon_decay <= 1) by nra.
      set (pd := p * Main.epsilon_decay) in *.
      transitivity Main.epsilon_min;
        [| symmetry]; apply Q.max_r; nra.
Qed.

Lemma run_epsilon_after (traces : list (list bool)) :
  forall st : Main.LoopState,
  Forall (fun steps => existsb (fun d => d) steps = true) traces ->
  Forall2 (fun e n => e = Main.epsilon_after n (Main.epsilon st))
          (Main.run traces st) (seq 1 (length traces)).
Proof.
  induction traces as [| steps traces IH]; intros st Hall;
    cbn [Main.run length seq].
  - constructor.
  - inversion Hall as [| ? ? Hdone Hrest]; subst.
    assert (He : Main.epsilon (Main.episode steps st)
                 = Main.decay (Main.epsilon st))
      by (now rewrite episode_epsilon, Hdone).
    constructor; [exact He |].
    specialize (IH (Main.episode steps st) Hrest). rewrite He in IH.
    rewrite <- seq_shift.
    clear - IH. induction IH as [| e n es ns Hen _ IH']; cbn [map];
      constructor; auto.
Qed.

(** X19.  When the loop starts at or above [epsilon_min], the [epsilon]
    in force after the [n]-th completed episode is
    [max(epsilon_0 * epsilon_decay^n, epsilon_min)]. *)
Theorem epsilon_after_episodes (traces : list (list bool))
    (st : Main.LoopState) :
  Forall (fun steps => existsb (fun d => d) steps = true) traces ->
  Main.epsilon_min <= Main.epsilon st ->
  Forall2 (fun e n =>
             e == Qmax (Main.epsilon st * Main.epsilon_decay ^ Z.of_nat n)
                       Main.epsilon_min)
          (Main.run traces st) (seq 1 (length traces)).
Proof.
  intros Hall Hmin. pose proof (run_epsilon_after st Hall) as H.
  induction H as [| e n es ns Hen _ IH]; constructor; auto.
  rewrite Hen. now apply epsilon_after_closed_form.
Qed.

Lemma epsilon_after_episodes_witness :
  Forall2 (fun e n =>
             e == Qmax (Main.epsilon_init * Main.epsilon_decay ^ Z.of_nat n)
                       Main.epsilon_min)
          (Main.run [[false; true]; [true]] (Main.mkLoop Main.epsilon_init 0))
          (seq 1 (length [[false; true]; [true]])).
Proof.
  apply (@epsilon_after_episodes [[false; true]; [true]]
           (Main.mkLoop Main.epsilon_init 0)).
  - repeat constructor.
  - vm_compute. discriminate.
Defined.

(** ** The navigation environment: moves, collisions, goal *)

Section EnvSteps.
Import CustomEnv6.
Local Open Scope R_scope.

(** The vehicle after a move: on the requested cell, or on [OldState] when
    that cell is blocked; an invalid action changes nothing. *)
Lemma step_state (self : t) (action : Z) :
  snd (step self action)
  = match move (CurrentState self) action with
    | Raise _ => self
    | Ok next_position =>
        moved self (if blocked self next_position then OldState self
                    else next_position)
    end.
Proof.
  unfold step. destruct (move (CurrentState self) action) as [p | e];
    [| reflexivity].
  destruct (blocked self p); cbv zeta;
    destruct (Rlt_dec _ 1); reflexivity.
Qed.

Lemma blocked_moved (self : t) (p q : Pos) :
  blocked (moved self p) q = blocked self q.
Proof. reflexivity. Qed.

(** A move keeps the map, the start and the goal. *)
Lemma step_static (self : t) (action : Z) :
  let s' := snd (step self action) in
  Map s' = Map self /\ Map_shape s' = Map_shape self
  /\ StopSigns s' = StopSigns self /\ trafficLights s' = trafficLights self
  /\ SpeedMap s' = SpeedMap self
  /\ StartState s' = StartState self /\ GoalState s' = GoalState self.
Proof.
  cbn zeta. rewrite step_state.
  destruct (move (CurrentState self) action); repeat split; reflexivity.
Qed.

Lemma step_blocked (self : t) (action : Z) (q : Pos) :
  blocked (snd (step self action)) q = blocked self q.
Proof.
  rewrite step_state. destruct (move (CurrentState self) action);
    reflexivity.
Qed.

Lemma step_keeps_free (self : t) (action : Z) :
  blocked self (CurrentState self) = false ->
  blocked self (OldState self) = false ->
  let s' := snd (step self action) in
  blocked s' (CurrentState s') = false /\ blocked s' (OldState s') = false.
Proof.
  intros Hc Ho. cbn zeta. rewrite !step_blocked. rewrite step_state.
  destruct (move (CurrentState self) action) as [p | e]; [| now split].
  cbn [CurrentState OldState moved].
  destruct (blocked self p) eqn:E; split; assumption.
Qed.

(** X20.  Starting on free cells (inside the map and not an obstacle), the
    vehicle stays on free cells through every run of moves: neither
    [CurrentState] nor [OldState] is ever outside the map or on an
    obstacle. *)
Theorem steps_stay_on_free_cells (actions : list Z) : forall self : t,
  blocked self (CurrentState self) = false ->
  blocked self (OldState self) = false ->
  let s' := steps self actions in
  blocked s' (CurrentState s') = false /\ blocked s' (OldState s') = false.
Proof.
  unfold steps.
  induction actions as [| a actions IH]; intros self Hc Ho;
    cbn [fold_left].
  - now split.
  - destruct (@step_keeps_free self a Hc Ho) as [Hc' Ho']. now apply IH.
Qed.

Lemma steps_stay_on_free_cells_witness :
  blocked (steps (reset env_start_is_goal) [0; 1; 3; 2]%Z)
          (CurrentState (steps (reset env_start_is_goal) [0; 1; 3; 2]%Z))
  = false
  /\ blocked (steps (reset env_start_is_goal) [0; 1; 3; 2]%Z)
             (OldState (steps (reset env_start_is_goal) [0; 1; 3; 2]%Z))
     = false.
Proof.
  apply (@steps_stay_on_free_cells [0; 1; 3; 2]%Z (reset env_start_is_goal));
    reflexivity.
Defined.

Lemma steps_static (actions : list Z) : forall self : t,
  reset (steps self actions) = reset self.
Proof.
  unfold steps.
  induction actions as [| a actions IH]; intros self; cbn [fold_left].
  - reflexivity.
  - rewrite IH. unfold reset.
    destruct (step_static self a) as (-> & -> & -> & -> & -> & -> & ->).
    reflexivity.
Qed.

(** X21.  [reset] after any run of moves gives the state [reset] gives
    before it: the vehicle is back on the start cell with [OldState] on
    the start cell too, and the map and the goal are as they were. *)
Theorem reset_after_steps (self : t) (actions : list Z) :
  reset (steps self actions) = reset self
  /\ CurrentState (reset (steps self actions)) = StartState self
  /\ OldState (reset (steps self actions)) = StartState self.
Proof.
  rewrite steps_static. repeat split.
Qed.

Lemma psub_zero (a b : Pos) : psub a b = (0, 0)%Z <-> a = b.
Proof.
  destruct a as [ax ay], b as [bx by_]. unfold psub; cbn [fst snd]. split.
  - intros H. injection H as Hx Hy. f_equal; lia.
  - intros H. injection H as -> ->. f_equal; lia.
Qed.

(** On the integer grid a distance below 1 is the distance 0. *)
Lemma norm_below_one (v : Pos) : norm v < 1 <-> v = (0, 0)%Z.
Proof.
  split.
  - destruct v as [x y]. unfold norm; cbn [fst snd]. intros H.
    assert (Hs : IZR x * IZR x + IZR y * IZR y < 1).
    { apply sqrt_lt_0_alt. now rewrite sqrt_1. }
    rewrite <- !mult_IZR, <- plus_IZR in Hs. apply lt_IZR in Hs.
    assert (x = 0 /\ y = 0)%Z as [-> ->] by nia. reflexivity.
  - intros ->. rewrite (norm_axis (Z.le_refl 0)). lra.
Qed.

(** X22.  A move ends the episode exactly when it leaves the vehicle on the
    goal cell: [done] is returned [True] if and only if the new
    [CurrentState] equals [GoalState]. *)
Theorem step_done_iff_on_goal (self s' : t) (action : Z) (r : npfloat)
    (d : bool) :
  step self action = (Ok (r, d), s') ->
  (d = true <-> CurrentState s' = GoalState s').
Proof.
  unfold step. destruct (move (CurrentState self) action) as [p | e];
    [| discriminate].
  cbv zeta.
  set (q := if blocked self p then OldState self else p).
  change (CurrentState (moved self q)) with q.
  change (GoalState (moved self q)) with (GoalState self).
  destruct (Rlt_dec (norm (psub q (GoalState self))) 1) as [Hlt | Hge].
  - intros H. inversion H; subst. cbn [CurrentState GoalState moved].
    apply (proj1 (norm_below_one _)) in Hlt.
    apply (proj1 (psub_zero _ _)) in Hlt.
    split; [intros _; exact Hlt | reflexivity].
  - assert (Hne : q <> GoalState self).
    { intros Heq. apply Hge. apply (proj2 (norm_below_one _)).
      apply (proj2 (psub_zero _ _)). exact Heq. }
    destruct (blocked self p); intros H; inversion H; subst;
      cbn [CurrentState GoalState moved]; split; intros; try discriminate;
      contradiction.
Qed.

Lemma step_done_iff_on_goal_witness :
  exists r d s',
    step (moved (reset env_start_is_goal) (1, 0)%Z) 0 = (Ok (r, d), s')
    /\ d = true /\ CurrentState s' = GoalState s'.
Proof.
  destruct (step (moved (reset env_start_is_goal) (1, 0)%Z) 0)
    as [[[r d] | e] s'] eqn:E.
  - exists r, d, s'. split; [reflexivity |].
    pose proof (step_done_iff_on_goal _ _ E) as Hiff.
    pose proof (f_equal snd E) as Hs. cbn [snd] in Hs.
    rewrite step_state in Hs. cbn in Hs.
    assert (Hcur : CurrentState s' = GoalState s') by (now subst s').
    split; [apply Hiff; exact Hcur | exact Hcur].
  - unfold step in E. cbn in E.
    destruct (Rlt_dec _ 1); discriminate.
Defined.

(** X23.  When the start cell differs from the goal cell, every reward that
    [step] returns is a number: no move produces [NaN] or an infinity. *)
Theorem step_reward_finite (self s' : t) (action : Z) (r : npfloat)
    (d : bool) :
  StartState self <> GoalState self ->
  step self action = (Ok (r, d), s') ->
  is_finite r = true.
Proof.
  intros Hsg. unfold step.
  destruct (move (CurrentState self) action) as [p | e]; [| discriminate].
  cbv zeta.
  destruct (Rlt_dec _ 1).
  - intros H. inversion H; subst. destruct (blocked self p); reflexivity.
  - destruct (blocked self p) eqn:E; intros H; inversion H; subst.
    + reflexivity.
    + pose proof (@on_road_reward_finite (moved self p) p Hsg) as Hf.
      destruct (_on_road_reward (moved self p) p); try discriminate.
      reflexivity.
Qed.

(** X24.  A move onto a blocked cell (outside the map or an obstacle) does
    not keep the vehicle in place: it is put on [OldState], the cell it
    held one move earlier, and [OldState] becomes the cell it was on; the
    reward is [CollisionReward] and the episode goes on, unless that cell
    is the goal. *)
Theorem step_collision (self : t) (action : Z) (next_position : Pos) :
  move (CurrentState self) action = Ok next_position ->
  blocked self next_position = true ->
  let s' := snd (step self action) in
  CurrentState s' = OldState self
  /\ OldState s' = CurrentState self
  /\ (OldState self <> GoalState self ->
      fst (step self action) = Ok (Finite (0 + CollisionReward), false)).
Proof.
  intros Hm Hb. cbn zeta. rewrite step_state, Hm, Hb.
  split; [reflexivity |]. split; [reflexivity |].
  intros Hne. unfold step. rewrite Hm, Hb. cbv zeta.
  change (CurrentState (moved self (OldState self))) with (OldState self).
  change (GoalState (moved self (OldState self))) with (GoalState self).
  destruct (Rlt_dec _ 1) as [Hlt | _]; [| reflexivity].
  exfalso. apply Hne.
  apply (proj1 (psub_zero _ _)). apply (proj1 (norm_below_one _)). exact Hlt.
Qed.
End EnvSteps.

Section EnvWitnesses.
Import CustomEnv6.

Lemma step_reward_finite_witness :
  exists r d s',
    step (reset env_corner_to_corner) 1 = (Ok (r, d), s')
    /\ is_finite r = true.
Proof.
  destruct (step (reset env_corner_to_corner) 1) as [[[r d] | e] s'] eqn:E.
  - exists r, d, s'. split; [reflexivity |].
    apply (@step_reward_finite (reset env_corner_to_corner) s' 1 r d);
      [discriminate | exact E].
  - unfold step in E. cbn in E. destruct (Rlt_dec _ 1); discriminate.
Defined.

Lemma step_collision_witness :
  CurrentState (snd (step (reset env_corner_to_corner) 0))
  = OldState (reset env_corner_to_corner)
  /\ OldState (snd (step (reset env_corner_to_corner) 0))
     = CurrentState (reset env_corner_to_corner)
  /\ fst (step (reset env_corner_to_corner) 0)
     = Ok (Finite (0 + CollisionReward), false).
Proof.
  destruct (@step_collision (reset env_corner_to_corner) 0 (-1, 0)%Z
              eq_refl eq_refl) as (Hc & Ho & Hr).
  split; [exact Hc |]. split; [exact Ho |]. apply Hr. discriminate.
Defined.
End EnvWitnesses.

Lemma exploration_guard_admits_sampling_witness :
  exists idx es,
    fst (fst (ReplayBuffer.sample buffer201 Main.batch_size g0))
    = Ok (ReplayBuffer.batch_of es)
    /\ length es = Main.batch_size /\ NoDup idx
    /\ Forall2 (fun i e =>
                  nth_error (items (ReplayBuffer.memory buffer201)) i = Some e)
               idx es.
Proof.
  apply exploration_guard_admits_sampling.
  unfold ReplayBuffer.len, buffer201. cbn [ReplayBuffer.memory items].
  rewrite repeat_length. unfold Main.exploration. lia.
Defined.
